(** * iichid: HID-over-I2C transport, HID usage maps and the pen driver

    A shallow embedding of [iichid.c], [hmap.h] and [hpen.c].  Kernel
    services (bus, taskqueue, callout, evdev, sysctl) are not part of the
    repository: every call to one of them is recorded in a trace, and what
    the kernel answers is an argument of the embedded function. *)

From Stdlib Require Import ZArith List String Bool Lia.
From Stdlib.Strings Require Import Byte.
Import ListNotations.
Local Open Scope string_scope.
Local Open Scope list_scope.
Local Open Scope Z_scope.

(** ** C integers *)

Module CInt.

Definition INT_MAX : Z := 2147483647.
Definition INT_MIN : Z := -2147483648.

(** Two's complement wrap-around of a 32-bit [int]. *)
Definition int_wrap (z : Z) : Z := (z + 2147483648) mod 4294967296 - 2147483648.

Definition int_add (a b : Z) : Z := int_wrap (a + b).
Definition int_sub (a b : Z) : Z := int_wrap (a - b).

(** C division truncates towards zero. *)
Definition int_div (a b : Z) : Z := int_wrap (Z.quot a b).

(** A [uint8_t] promoted to [int]. *)
Definition byte_val (b : byte) : Z := Z.of_N (Byte.to_N b).

End CInt.

(** ** errno values (sys/errno.h) *)

Module Errno.
Definition EIO : Z := 5.
Definition ENXIO : Z := 6.
Definition EINVAL : Z := 22.
Definition ENOSYS : Z := 78.
End Errno.

(** ** Report locations, shared by the transport and the usage maps *)

Module Hid.

(** [struct hid_location] together with the report ID of the item. *)
Record hid_location : Type := {
  report_id : Z;
  bit_offset : Z;
  bit_width : Z;
  count : Z;
  logical_min : Z;
  logical_max : Z
}.

(** First bit after the item. *)
Definition item_end (l : hid_location) : Z :=
  bit_offset l + bit_width l * count l.

(** Modelled from the spec: [max_report_size[report_id]], the highest bit
    after any parsed input item of that report ID, rounded up to bytes. *)
Definition max_report_size (items : list hid_location) (id : Z) : Z :=
  (fold_right Z.max 0
     (map item_end (filter (fun l => report_id l =? id) items)) + 7) / 8.

(** Modelled from the spec: the maximum of [max_report_size] across the
    report IDs of the descriptor, the longest input report in bytes. *)
Definition hid_report_size (items : list hid_location) : Z :=
  fold_right Z.max 0 (map (fun l => max_report_size items (report_id l)) items).

(** Modelled from the spec: the interrupt buffer size as the specification
    words it, the maximum across report IDs plus 1 for the ID byte. *)
Definition spec_intr_buffer_size (items : list hid_location) : Z :=
  hid_report_size items + 1.

End Hid.

(** ** iichid.c *)

Module Iichid.
Import CInt Errno.

(** Kernel calls made by the transport, in the order they happen. *)
Inductive kcall : Type :=
| Device_printf (fmt : string) (args : list Z)
| Intr_handler (fn ctx : Z) (data : list byte) (len : Z)
| Callout_init_mtx
| Callout_reset (ticks : Z)
| Callout_stop
| Bus_setup_intr (res : Z)
| Bus_teardown_intr (res cookie : Z)
| Bus_alloc_resource_any (rid : Z)
| Bus_release_resource (rid res : Z)
| Malloc (size : Z)
| Free_input_buf
| Free_tmpbuf
| Task_init
| Taskqueue_create
| Taskqueue_start_threads (tq : Z)
| Taskqueue_block (tq : Z)
| Taskqueue_drain (tq : Z)
| Taskqueue_free (tq : Z)
| Sysctl_add_proc.

(** The fields of [struct iichid] that [iichid.c] reads or writes.  A
    pointer is [None] when it is NULL; [input_buf] points to the bytes it
    holds.  [free] and [bus_release_resource] do not change the pointer
    they are given. *)
Record iichid : Type := {
  wMaxInputLength : Z;
  input_size : Z;
  input_buf : option (list byte);
  intr_handler : Z;
  intr_sc : Z;
  taskqueue : option Z;
  irq_res : option Z;
  irq_rid : Z;
  irq_cookie : option Z;
  sampling_rate : Z;
  callout_setup : bool
}.

Definition set_input_size (v : Z) (sc : iichid) : iichid :=
  {| wMaxInputLength := wMaxInputLength sc; input_size := v;
     input_buf := input_buf sc; intr_handler := intr_handler sc;
     intr_sc := intr_sc sc; taskqueue := taskqueue sc; irq_res := irq_res sc;
     irq_rid := irq_rid sc; irq_cookie := irq_cookie sc;
     sampling_rate := sampling_rate sc; callout_setup := callout_setup sc |}.

Definition set_input_buf (v : option (list byte)) (sc : iichid) : iichid :=
  {| wMaxInputLength := wMaxInputLength sc; input_size := input_size sc;
     input_buf := v; intr_handler := intr_handler sc;
     intr_sc := intr_sc sc; taskqueue := taskqueue sc; irq_res := irq_res sc;
     irq_rid := irq_rid sc; irq_cookie := irq_cookie sc;
     sampling_rate := sampling_rate sc; callout_setup := callout_setup sc |}.

Definition set_intr_handler (fn ctx : Z) (sc : iichid) : iichid :=
  {| wMaxInputLength := wMaxInputLength sc; input_size := input_size sc;
     input_buf := input_buf sc; intr_handler := fn;
     intr_sc := ctx; taskqueue := taskqueue sc; irq_res := irq_res sc;
     irq_rid := irq_rid sc; irq_cookie := irq_cookie sc;
     sampling_rate := sampling_rate sc; callout_setup := callout_setup sc |}.

Definition set_taskqueue (v : option Z) (sc : iichid) : iichid :=
  {| wMaxInputLength := wMaxInputLength sc; input_size := input_size sc;
     input_buf := input_buf sc; intr_handler := intr_handler sc;
     intr_sc := intr_sc sc; taskqueue := v; irq_res := irq_res sc;
     irq_rid := irq_rid sc; irq_cookie := irq_cookie sc;
     sampling_rate := sampling_rate sc; callout_setup := callout_setup sc |}.

Definition set_irq_res (v : option Z) (sc : iichid) : iichid :=
  {| wMaxInputLength := wMaxInputLength sc; input_size := input_size sc;
     input_buf := input_buf sc; intr_handler := intr_handler sc;
     intr_sc := intr_sc sc; taskqueue := taskqueue sc; irq_res := v;
     irq_rid := irq_rid sc; irq_cookie := irq_cookie sc;
     sampling_rate := sampling_rate sc; callout_setup := callout_setup sc |}.

Definition set_irq_rid (v : Z) (sc : iichid) : iichid :=
  {| wMaxInputLength := wMaxInputLength sc; input_size := input_size sc;
     input_buf := input_buf sc; intr_handler := intr_handler sc;
     intr_sc := intr_sc sc; taskqueue := taskqueue sc; irq_res := irq_res sc;
     irq_rid := v; irq_cookie := irq_cookie sc;
     sampling_rate := sampling_rate sc; callout_setup := callout_setup sc |}.

Definition set_irq_cookie (v : option Z) (sc : iichid) : iichid :=
  {| wMaxInputLength := wMaxInputLength sc; input_size := input_size sc;
     input_buf := input_buf sc; intr_handler := intr_handler sc;
     intr_sc := intr_sc sc; taskqueue := taskqueue sc; irq_res := irq_res sc;
     irq_rid := irq_rid sc; irq_cookie := v;
     sampling_rate := sampling_rate sc; callout_setup := callout_setup sc |}.

Definition set_sampling_rate (v : Z) (sc : iichid) : iichid :=
  {| wMaxInputLength := wMaxInputLength sc; input_size := input_size sc;
     input_buf := input_buf sc; intr_handler := intr_handler sc;
     intr_sc := intr_sc sc; taskqueue := taskqueue sc; irq_res := irq_res sc;
     irq_rid := irq_rid sc; irq_cookie := irq_cookie sc;
     sampling_rate := v; callout_setup := callout_setup sc |}.

Definition set_callout_setup (v : bool) (sc : iichid) : iichid :=
  {| wMaxInputLength := wMaxInputLength sc; input_size := input_size sc;
     input_buf := input_buf sc; intr_handler := intr_handler sc;
     intr_sc := intr_sc sc; taskqueue := taskqueue sc; irq_res := irq_res sc;
     irq_rid := irq_rid sc; irq_cookie := irq_cookie sc;
     sampling_rate := sampling_rate sc; callout_setup := v |}.

(** A softc as newbus hands it out: zero filled. *)
Definition softc_zero (max_input_length : Z) : iichid :=
  {| wMaxInputLength := max_input_length; input_size := 0;
     input_buf := None; intr_handler := 0; intr_sc := 0; taskqueue := None;
     irq_res := None; irq_rid := 0; irq_cookie := None;
     sampling_rate := 0; callout_setup := false |}.

(** *** The monad of the transport: softc state and a trace of kernel calls *)

Definition M (A : Type) : Type := iichid -> A * iichid * list kcall.

Definition ret {A : Type} (a : A) : M A := fun sc => (a, sc, []).

Definition bind {A B : Type} (m : M A) (f : A -> M B) : M B :=
  fun sc =>
    let '(a, sc1, t1) := m sc in
    let '(b, sc2, t2) := f a sc1 in
    (b, sc2, t1 ++ t2).

Definition gets {A : Type} (f : iichid -> A) : M A := fun sc => (f sc, sc, []).
Definition modify (f : iichid -> iichid) : M unit := fun sc => (tt, f sc, []).
Definition call (k : kcall) : M unit := fun sc => (tt, sc, [k]).
Definition when (b : bool) (m : M unit) : M unit := if b then m else ret tt.

Declare Scope iichid_scope.
Delimit Scope iichid_scope with iichid.
Notation "x <- m ;; k" := (bind m (fun x => k))
  (at level 61, m at next level, right associativity) : iichid_scope.
Notation "m ;; k" := (bind m (fun _ => k))
  (at level 61, right associativity) : iichid_scope.
Local Open Scope iichid_scope.

Definition result {A : Type} (r : A * iichid * list kcall) : A := fst (fst r).
Definition state {A : Type} (r : A * iichid * list kcall) : iichid := snd (fst r).
Definition trace {A : Type} (r : A * iichid * list kcall) : list kcall := snd r.

Definition DPRINTF (fmt : string) (args : list Z) : M unit :=
  call (Device_printf fmt args).

Definition is_null {A : Type} (p : option A) : bool :=
  match p with None => true | Some _ => false end.

(** [le16toh] on the little-endian hosts the driver runs on. *)
Definition le16toh (x : Z) : Z := x.

(** [data[0] | data[1] << 8], the length field at the head of an input
    report. *)
Definition report_length (data : list byte) : Z :=
  Z.lor (byte_val (nth 0 data x00)) (Z.shiftl (byte_val (nth 1 data x00)) 8).

Section Transport.

(** Kernel tick rate and the default polling rate of [iichid.h]. *)
Variable hz : Z.
Variable IICHID_DEFAULT_SAMPLING_RATE : Z.

(** [iichid_fetch_input_report]: [xfer] is what [iicbus_transfer] answered,
    its error code and the [len] bytes read.  Returns the error and
    [*actual_len]. *)
Definition iichid_fetch_input_report (xfer : Z * list byte) (actual0 : Z)
  : M (Z * Z) :=
  let '(error, buf) := xfer in
  if negb (error =? 0) then
    call (Device_printf "could not retrieve input report (%d)" [error]) ;;
    ret (error, actual0)
  else
    modify (set_input_buf (Some buf)) ;;
    ret (0, report_length buf).

(** The tail of [iichid_event_task] after the label [out]. *)
Definition event_task_out : M unit :=
  setup <- gets callout_setup ;;
  rate <- gets sampling_rate ;;
  when (setup && (0 <? rate)) (call (Callout_reset (int_div hz rate))).

Definition iichid_event_task (xfer : Z * list byte) : M unit :=
  r <- iichid_fetch_input_report xfer 0 ;;
  let '(error, actual) := r in
  (if negb (error =? 0) then
     call (Device_printf "an error occured" [])
   else if actual <=? 2 then
     ret tt
   else
     fn <- gets intr_handler ;;
     ctx <- gets intr_sc ;;
     buf <- gets input_buf ;;
     call (Intr_handler fn ctx (skipn 2 (match buf with Some b => b | None => [] end))
             (int_sub actual 2))) ;;
  event_task_out.

Definition iichid_setup_callout : M Z :=
  rate <- gets sampling_rate ;;
  if rate <? 0 then
    DPRINTF "sampling_rate is below 0, can't setup callout" [] ;;
    ret EINVAL
  else
    call Callout_init_mtx ;;
    modify (set_callout_setup true) ;;
    DPRINTF "successfully setup callout" [] ;;
    ret 0.

Definition iichid_reset_callout : M Z :=
  rate <- gets sampling_rate ;;
  if rate <=? 0 then
    DPRINTF "sampling_rate is below or equal to 0, can't reset callout" [] ;;
    ret EINVAL
  else
    setup <- gets callout_setup ;;
    if setup then
      call (Callout_reset (int_div hz rate)) ;;
      ret 0
    else
      ret EINVAL.

Definition iichid_teardown_callout : M unit :=
  call Callout_stop ;;
  modify (set_callout_setup false) ;;
  DPRINTF "tore callout down" [].

(** [intr] is the answer of [bus_setup_intr]: its error code and the cookie
    it stored. *)
Definition iichid_setup_interrupt (intr : Z * option Z) : M Z :=
  modify (set_irq_cookie None) ;;
  res <- gets irq_res ;;
  call (Bus_setup_intr (match res with Some r => r | None => 0 end)) ;;
  modify (set_irq_cookie (snd intr)) ;;
  if negb (fst intr =? 0) then
    DPRINTF "Could not setup interrupt handler" [] ;;
    ret (fst intr)
  else
    DPRINTF "successfully setup interrupt" [] ;;
    ret 0.

Definition iichid_teardown_interrupt : M unit :=
  cookie <- gets irq_cookie ;;
  res <- gets irq_res ;;
  match cookie with
  | Some c => call (Bus_teardown_intr (match res with Some r => r | None => 0 end) c)
  | None => ret tt
  end ;;
  modify (set_irq_cookie None).

(** What the kernel answers during one run of the sysctl handler:
    the result of [sysctl_handle_int], whether [req->newptr] is set, the
    content of [value] after the call, and the answer of [bus_setup_intr]
    should the handler switch to interrupt mode. *)
Record sysctl_req : Type := {
  handle_int_err : Z;
  newptr : bool;
  new_value : Z;
  sysctl_intr : Z * option Z
}.

Definition iichid_sysctl_sampling_rate_handler (req : sysctl_req) : M Z :=
  oldval <- gets sampling_rate ;;
  let err := handle_int_err req in
  let value := new_value req in
  if negb (err =? 0) || negb (newptr req) || (value =? oldval) then
    ret err
  else
    res <- gets irq_res ;;
    if is_null res && (value <? 0) then
      ret err
    else
      modify (set_sampling_rate value) ;;
      (if (oldval <? 0) && (0 <=? value) then
         iichid_teardown_interrupt ;;
         _ <- iichid_setup_callout ;;
         ret tt
       else if (0 <=? oldval) && (value <? 0) then
         iichid_teardown_callout ;;
         _ <- iichid_setup_interrupt (sysctl_intr req) ;;
         ret tt
       else ret tt) ;;
      (if 0 <? value then _ <- iichid_reset_callout ;; ret tt else ret tt) ;;
      DPRINTF "new sampling_rate value: %d" [value] ;;
      ret 0.

(** What the kernel answers during [iichid_set_intr]: the taskqueue
    created (or NULL), the IRQ resource allocated (or NULL), and the answer
    of [bus_setup_intr]. *)
Record set_intr_env : Type := {
  tq_created : option Z;
  irq_allocated : option Z;
  attach_intr : Z * option Z
}.

Definition iichid_set_intr (env : set_intr_env) (intr ctx : Z) : M Z :=
  modify (set_intr_handler intr ctx) ;;
  call Task_init ;;
  call Taskqueue_create ;;
  modify (set_taskqueue (tq_created env)) ;;
  match tq_created env with
  | None => ret ENXIO
  | Some tq =>
    size <- gets input_size ;;
    when (size =? 0)
      (len <- gets wMaxInputLength ;; modify (set_input_size (le16toh len))) ;;
    size <- gets input_size ;;
    call (Malloc size) ;;
    modify (set_input_buf (Some (repeat x00 (Z.to_nat size)))) ;;
    call (Taskqueue_start_threads tq) ;;
    modify (set_irq_rid 0) ;;
    modify (set_sampling_rate (-1)) ;;
    call (Bus_alloc_resource_any 0) ;;
    modify (set_irq_res (irq_allocated env)) ;;
    match irq_allocated env with
    | Some res => DPRINTF "allocated irq at 0x%lx and rid %d" [res; 0]
    | None =>
      DPRINTF "IRQ allocation failed. Fallback to sampling." [] ;;
      modify (set_sampling_rate IICHID_DEFAULT_SAMPLING_RATE)
    end ;;
    rate <- gets sampling_rate ;;
    when (rate <? 0)
      (error <- iichid_setup_interrupt (attach_intr env) ;;
       when (negb (error =? 0))
         (call (Device_printf "Interrupt setup failed. Fallback to sampling." []) ;;
          modify (set_sampling_rate IICHID_DEFAULT_SAMPLING_RATE))) ;;
    rate <- gets sampling_rate ;;
    when (0 <=? rate)
      (_ <- iichid_setup_callout ;; _ <- iichid_reset_callout ;; ret tt) ;;
    call Sysctl_add_proc ;;
    ret 0
  end.

(** [iichid_get_report_desc]: [fetch] is the error code of
    [iichid_fetch_buffer]; [report_size] is what the kernel's
    [hid_report_size(tmpbuf, *len, hid_input, NULL)] returns for the
    descriptor that was read, the length in bytes of its longest input
    report. *)
Definition iichid_get_report_desc (desc_len : Z) (fetch : Z)
    (report_size : Z) : M Z :=
  DPRINTF "HID command I2C_HID_REPORT_DESCR at 0x%x with size %d" [] ;;
  call (Malloc desc_len) ;;
  if negb (fetch =? 0) then
    call Free_tmpbuf ;;
    call (Device_printf "could not retrieve report descriptor (%d)" [fetch]) ;;
    ret fetch
  else
    DPRINTF "HID report descriptor: %*D" [] ;;
    modify (set_input_size (int_add report_size 2)) ;;
    size <- gets input_size ;;
    len <- gets wMaxInputLength ;;
    when (negb (size =? le16toh len))
      (DPRINTF "determined (len=%d) and described (len=%d) input report lengths mismatch"
         [size; le16toh len]) ;;
    ret 0.

Definition iichid_destroy : M unit :=
  buf <- gets input_buf ;;
  when (negb (is_null buf)) (call Free_input_buf) ;;
  iichid_teardown_callout ;;
  iichid_teardown_interrupt ;;
  res <- gets irq_res ;;
  rid <- gets irq_rid ;;
  match res with
  | Some r => call (Bus_release_resource rid r)
  | None => ret tt
  end ;;
  tq <- gets taskqueue ;;
  match tq with
  | Some q =>
    call (Taskqueue_block q) ;; call (Taskqueue_drain q) ;; call (Taskqueue_free q)
  | None => ret tt
  end.

End Transport.

(** *** Observations on traces and states *)

Definition is_intr_handler (k : kcall) : bool :=
  match k with Intr_handler _ _ _ _ => true | _ => false end.

Definition is_printf (k : kcall) : bool :=
  match k with Device_printf _ _ => true | _ => false end.

(** The invocations of the registered interrupt handler in a trace. *)
Definition handler_calls (tr : list kcall) : list kcall := filter is_intr_handler tr.

(** The console messages of a trace. *)
Definition printfs (tr : list kcall) : list kcall := filter is_printf tr.

(** A report is dropped silently: the handler does not see it and nothing
    is printed. *)
Definition silently_dropped (tr : list kcall) : Prop :=
  handler_calls tr = [] /\ printfs tr = [].

(** The re-arming of the polling callout that ends every event task. *)
Definition rearm (hz : Z) (sc : iichid) : list kcall :=
  if callout_setup sc && (0 <? sampling_rate sc)
  then [Callout_reset (int_div hz (sampling_rate sc))] else [].

(** Polling mode whenever there is no IRQ resource. *)
Definition polling_inv (sc : iichid) : Prop :=
  irq_res sc = None -> 0 <= sampling_rate sc.

(** The entry points of the transport. *)
Inductive op : Type :=
| Op_get_report_desc (desc_len fetch report_size : Z)
| Op_set_intr (env : set_intr_env) (intr ctx : Z)
| Op_sysctl (req : sysctl_req)
| Op_event_task (xfer : Z * list byte)
| Op_destroy.

Definition run_op (hz dflt : Z) (o : op) (sc : iichid) : iichid :=
  match o with
  | Op_get_report_desc desc_len fetch report_size =>
    state (iichid_get_report_desc desc_len fetch report_size sc)
  | Op_set_intr env intr ctx => state (iichid_set_intr hz dflt env intr ctx sc)
  | Op_sysctl req => state (iichid_sysctl_sampling_rate_handler hz req sc)
  | Op_event_task xfer => state (iichid_event_task hz xfer sc)
  | Op_destroy => state (iichid_destroy sc)
  end.

(** The softc states a device goes through, from the zero-filled one. *)
Inductive reachable (hz dflt : Z) : iichid -> Prop :=
| reach_zero : forall len, reachable hz dflt (softc_zero len)
| reach_step : forall sc o,
    reachable hz dflt sc -> reachable hz dflt (run_op hz dflt o sc).

(** A device attached in interrupt mode: taskqueue 1, IRQ resource 2,
    interrupt cookie 3, a 12-byte input buffer. *)
Definition env_irq : set_intr_env :=
  {| tq_created := Some 1; irq_allocated := Some 2; attach_intr := (0, Some 3) |}.

(** A device without IRQ resource. *)
Definition env_no_irq : set_intr_env :=
  {| tq_created := Some 1; irq_allocated := None; attach_intr := (0, None) |}.

Definition attached_example : iichid :=
  state (iichid_set_intr 1000 60 env_irq 7 8 (softc_zero 12)).

(** An input descriptor with one item: eight fields of eight bits, no
    report ID. *)
Definition eight_bytes : list Hid.hid_location :=
  [ {| Hid.report_id := 0; Hid.bit_offset := 0; Hid.bit_width := 8;
       Hid.count := 8; Hid.logical_min := 0; Hid.logical_max := 255 |} ].

End Iichid.

(** ** Event codes of the evdev sink (dev/evdev/input-event-codes.h) *)

Module Evdev.

Definition EV_KEY : Z := 1.
Definition EV_REL : Z := 2.
Definition EV_ABS : Z := 3.
Definition EV_PWR : Z := 22.

Definition INPUT_PROP_POINTER : Z := 0.
Definition INPUT_PROP_DIRECT : Z := 1.

Definition ABS_X : Z := 0.
Definition ABS_Y : Z := 1.
Definition ABS_PRESSURE : Z := 24.
Definition ABS_TILT_X : Z := 26.
Definition ABS_TILT_Y : Z := 27.

Definition BTN_TOOL_PEN : Z := 320.
Definition BTN_TOOL_RUBBER : Z := 321.
Definition BTN_TOUCH : Z := 330.
Definition BTN_STYLUS : Z := 331.
Definition BTN_STYLUS2 : Z := 332.

(** Calls accepted by the sink. *)
Inductive evdev_call : Type :=
| Evdev_support_event (type : Z)
| Evdev_support_key (code : Z)
| Evdev_support_rel (code : Z)
| Evdev_support_abs (code min max : Z)
| Evdev_support_prop (prop : Z)
| Evdev_push_event (type code value : Z)
| Evdev_sync.


End Evdev.

(** ** HID usage pages and usages (usbhid.h) *)

Module Usage.

Definition HUP_GENERIC_DESKTOP : Z := 1.
Definition HUP_DIGITIZERS : Z := 13.

Definition HUG_X : Z := 48.
Definition HUG_Y : Z := 49.

Definition HUD_TIP_PRESSURE : Z := 48.
Definition HUD_IN_RANGE : Z := 50.
Definition HUD_TOUCH : Z := 51.
Definition HUD_BATTERY_STRENGTH : Z := 59.
Definition HUD_INVERT : Z := 60.
Definition HUD_X_TILT : Z := 61.
Definition HUD_Y_TILT : Z := 62.
Definition HUD_TIP_SWITCH : Z := 66.
Definition HUD_SEC_TIP_SWITCH : Z := 67.
Definition HUD_BARREL_SWITCH : Z := 68.
Definition HUD_ERASER : Z := 69.
Definition HUD_TABLET_PICK : Z := 70.
Definition HUD_SEC_BARREL_SWITCH : Z := 90.

Definition HID_USAGE2 (page usage : Z) : Z := Z.lor (Z.shiftl page 16) usage.

End Usage.

(** ** hmap.h *)

Module Hmap.
Import CInt Evdev.

(** Modelled from the spec: [HMAP_CB_GET_STATE()] and the states it returns
    are used by [hpen.c] and declared in no file of the repository.  A
    callback runs while the device attaches ([hi == NULL], where rows
    announce capabilities), while it runs (interrupt time) or while it
    detaches. *)
Inductive hmap_cb_state : Type :=
| HMAP_CB_IS_ATTACHING
| HMAP_CB_IS_RUNNING
| HMAP_CB_IS_DETACHING.

Definition hmap_cb_state_eqb (a b : hmap_cb_state) : bool :=
  match a, b with
  | HMAP_CB_IS_ATTACHING, HMAP_CB_IS_ATTACHING => true
  | HMAP_CB_IS_RUNNING, HMAP_CB_IS_RUNNING => true
  | HMAP_CB_IS_DETACHING, HMAP_CB_IS_DETACHING => true
  | _, _ => false
  end.

Inductive hmap_relabs : Type :=
| HMAP_RELABS_ANY
| HMAP_RELATIVE
| HMAP_ABSOLUTE.

Inductive hmap_type : Type :=
| HMAP_TYPE_CALLBACK
| HMAP_TYPE_VARIABLE
| HMAP_TYPE_ARR_LIST
| HMAP_TYPE_ARR_RANGE.

(** The union at the head of [struct hmap_hid_item]: the map row, by its
    index in the map, or the bookkeeping of an array. *)
Inductive hid_item_data : Type :=
| Hi_map (row : nat)
| Hi_array (offset : Z) (last_key : Z).

Record hmap_hid_item : Type := {
  hi_data : hid_item_data;
  hi_id : Z;
  hi_loc : Hid.hid_location;
  hi_type : hmap_type;
  hi_is_signed : bool
}.

(** [hmap_cb_t] with [HMAP_CB_ARGS]: the state the softc is in, [hi] and
    [ctx].  A callback talks to the evdev sink and returns an [int], as the
    callbacks defined in [hpen.c] do (the typedef of [hmap.h] still says
    [void]). *)
Definition hmap_cb_t : Type :=
  hmap_cb_state -> option hmap_hid_item -> Z -> list evdev_call * Z.

(** [HMAP_IS_ATTACHING] *)
Definition HMAP_IS_ATTACHING (hi : option hmap_hid_item) : bool :=
  match hi with None => true | Some _ => false end.

(** The anonymous union of [struct hmap_item]. *)
Inductive hmap_payload : Type :=
| Event (type : Z) (code : Z)
| Callback (cb : hmap_cb_t).

(** A [char *]: a string literal, or the pointer an integer constant
    converts to (0 is [NULL]). *)
Inductive c_string : Type :=
| Str (s : string)
| Int_to_ptr (v : Z).

Record hmap_item : Type := {
  name : c_string;
  usage : Z;
  payload : hmap_payload;
  required : bool;
  relabs : hmap_relabs;
  has_cb : bool
}.

(** Members a designated initializer does not mention are zero. *)
Definition HMAP_KEY (_name : c_string) (_usage _code : Z) : hmap_item :=
  {| name := _name; usage := _usage; payload := Event EV_KEY _code;
     required := false; relabs := HMAP_RELABS_ANY; has_cb := false |}.

Definition HMAP_REL (_name : c_string) (_usage _code : Z) : hmap_item :=
  {| name := _name; usage := _usage; payload := Event EV_REL _code;
     required := false; relabs := HMAP_RELATIVE; has_cb := false |}.

Definition HMAP_ABS (_name : c_string) (_usage _code : Z) : hmap_item :=
  {| name := _name; usage := _usage; payload := Event EV_ABS _code;
     required := false; relabs := HMAP_ABSOLUTE; has_cb := false |}.

Definition HMAP_ANY_CB (_name : c_string) (_usage : Z) (_callback : hmap_cb_t)
  : hmap_item :=
  {| name := _name; usage := _usage; payload := Callback _callback;
     required := false; relabs := HMAP_RELABS_ANY; has_cb := true |}.

Definition with_relabs (r : hmap_relabs) (mi : hmap_item) : hmap_item :=
  {| name := name mi; usage := usage mi; payload := payload mi;
     required := required mi; relabs := r; has_cb := has_cb mi |}.

Definition HMAP_REL_CB (_name : c_string) (_usage : Z) (_callback : hmap_cb_t)
  : hmap_item := with_relabs HMAP_RELATIVE (HMAP_ANY_CB _name _usage _callback).

Definition HMAP_ABS_CB (_name : c_string) (_usage : Z) (_callback : hmap_cb_t)
  : hmap_item := with_relabs HMAP_ABSOLUTE (HMAP_ANY_CB _name _usage _callback).

(** Modelled from the spec: [HMAP_COMPL_CB] is used by [hpen.c] and defined
    in no file of the repository.  A completion row has [has_cb] set and no
    usage: the usage member stays zero, and so does the name. *)
Definition HMAP_COMPL_CB (_callback : hmap_cb_t) : hmap_item :=
  {| name := Int_to_ptr 0; usage := 0; payload := Callback _callback;
     required := false; relabs := HMAP_RELABS_ANY; has_cb := true |}.

(** The trailing [.required = true] of a map row. *)
Definition set_required (mi : hmap_item) : hmap_item :=
  {| name := name mi; usage := usage mi; payload := payload mi;
     required := true; relabs := relabs mi; has_cb := has_cb mi |}.

Definition has_usage (mi : hmap_item) : bool := negb (usage mi =? 0).

Definition is_completion (mi : hmap_item) : bool :=
  has_cb mi && negb (has_usage mi).

(** *** Capability bit strings (sys/bitstring.h) *)

(** A [bitstr_t] array: words of [BITSTR_BITS] bits. *)
Definition bitstr : Type := list Z.
Definition BITSTR_BITS : Z := 64.

(** [bitstr_size(nbits)]: words needed for [nbits] bits. *)
Definition bitstr_size (nbits : Z) : Z := (nbits + BITSTR_BITS - 1) / BITSTR_BITS.

Definition bit_idx (bit : Z) : Z := bit / BITSTR_BITS.
Definition bit_mask (bit : Z) : Z := Z.shiftl 1 (bit mod BITSTR_BITS).

Definition bit_test (b : bitstr) (bit : Z) : bool :=
  negb (Z.land (nth (Z.to_nat (bit_idx bit)) b 0) (bit_mask bit) =? 0).

(** The counting loop of [bit_count]: [n] positions from [i] on. *)
Fixpoint bit_count_loop (b : bitstr) (i : Z) (n : nat) (value : Z) : Z :=
  match n with
  | O => value
  | S n' => bit_count_loop b (i + 1) n' (if bit_test b i then value + 1 else value)
  end.

(** [bit_count(bitstr, start, nbits, &result)] of the kernel header, by its
    manual page: the number of bits set in a bit string of [nbits] bits at
    or after position [start]. *)
Definition bit_count (b : bitstr) (start nbits : Z) : Z :=
  if nbits <=? start then 0
  else bit_count_loop b start (Z.to_nat (nbits - start)) 0.

(** One word of the bit string rewritten in place. *)
Fixpoint word_update (b : bitstr) (idx : nat) (f : Z -> Z) : bitstr :=
  match b, idx with
  | [], _ => []
  | w :: rest, O => f w :: rest
  | w :: rest, S idx' => w :: word_update rest idx' f
  end.

Definition bit_set (b : bitstr) (bit : Z) : bitstr :=
  word_update b (Z.to_nat (bit_idx bit)) (fun w => Z.lor w (bit_mask bit)).

(** [bit_decl(name, nbits)], zero filled. *)
Definition bit_decl (nbits : Z) : bitstr :=
  repeat 0 (Z.to_nat (bitstr_size nbits)).

Definition INPUT_PROP_CNT : Z := 32.

(** The members of [struct hmap_softc] set up before attach runs: the map
    registered by the child driver and the evdev properties it asked for. *)
Record hmap_softc : Type := {
  sc_map : list hmap_item;
  sc_isize : Z;
  sc_evdev_props : bitstr
}.

Definition hmap_test_cap (caps : bitstr) (cap : Z) : bool := bit_test caps cap.

Definition hmap_count_caps (caps : bitstr) (first last : Z) : Z :=
  bit_count caps first (int_add last 1).

(** The positions [first], [first + 1], ... ([n] of them). *)
Definition positions (first : Z) (n : nat) : list Z :=
  List.map (fun k => first + Z.of_nat k) (seq 0 n).

(** The set bits among the positions [first] through [last], inclusive. *)
Definition set_bits (caps : bitstr) (first last : Z) : list Z :=
  filter (bit_test caps) (positions first (Z.to_nat (last - first + 1))).

Definition hmap_set_evdev_prop (sc : hmap_softc) (prop : Z) : hmap_softc :=
  {| sc_map := sc_map sc; sc_isize := sc_isize sc;
     sc_evdev_props := bit_set (sc_evdev_props sc) prop |}.

End Hmap.

(** ** The resolver and the attach/detach controller

    [hmap.c] is not among the sources embedded above; this module follows
    the specification of the resolver (4.2), the attach and detach sequences
    (4.4) and the completion callback contract (4.5). *)

Module HmapCore.
Import CInt Errno Hid Evdev Hmap.

(** Modelled from the spec: the usage of a parsed input item, a single
    usage, an explicit list or a contiguous range. *)
Inductive usage_kind : Type :=
| Variable_usage (u : Z)
| ArrayList (usages : list Z)
| ArrayRange (usage_min usage_max : Z).

(** Modelled from the spec: a parsed input item, the output of the
    descriptor parser, with the Relative bit of its field flags. *)
Record parsed_item : Type := {
  location : hid_location;
  item_usage : usage_kind;
  is_relative : bool
}.

(** Modelled from the spec: the errors that abort attach. *)
Inductive attach_error : Type :=
| ParseError (offset : Z)
| RequiredMapRowUnbound (row : c_string).

(** Modelled from the spec: [HMAP_RELABS_ANY] takes both kinds of item,
    [HMAP_RELATIVE] and [HMAP_ABSOLUTE] require an exact match. *)
Definition relabs_accepts (r : hmap_relabs) (relative : bool) : bool :=
  match r with
  | HMAP_RELABS_ANY => true
  | HMAP_RELATIVE => relative
  | HMAP_ABSOLUTE => negb relative
  end.

(** Modelled from the spec: rules 1 and 3 of the resolver, a Variable item
    with usage [u] against an event or callback row.  A completion row has
    no usage and matches nothing (rule 4). *)
Definition row_matches_variable (u : Z) (relative : bool) (mi : hmap_item) : bool :=
  has_usage mi && (usage mi =? u) && relabs_accepts (relabs mi) relative.

(** Modelled from the spec: the first row, in map order, that satisfies
    [p]; [i] is the index of the head of [rows]. *)
Fixpoint find_row (p : hmap_item -> bool) (rows : list hmap_item) (i : nat)
  : option nat :=
  match rows with
  | [] => None
  | mi :: rest => if p mi then Some i else find_row p rest (S i)
  end.

(** Modelled from the spec: the rows an array can reach, event rows of
    type [EV_KEY]. *)
Definition is_key_row (mi : hmap_item) : bool :=
  match payload mi with
  | Event type _ => negb (has_cb mi) && has_usage mi && (type =? EV_KEY)
  | Callback _ => false
  end.

(** Modelled from the spec: the lookup usage -> map row index of rule 2. *)
Definition array_lookup (rows : list hmap_item) (u : Z) : option nat :=
  find_row (fun mi => is_key_row mi && (usage mi =? u)) rows 0.

Definition option_list {A : Type} (o : option A) : list A :=
  match o with Some a => [a] | None => [] end.

(** Modelled from the spec: the lookup of rule 2 for an array with a usage
    range, the rows of [rows] whose index the lookup returns for a usage
    between [lo] and [hi]; [i] is the index of the head of [rest]. *)
Fixpoint range_rows (rows rest : list hmap_item) (lo hi : Z) (i : nat) : list nat :=
  match rest with
  | [] => []
  | mi :: rest' =>
    (if (lo <=? usage mi) && (usage mi <=? hi)
        && match array_lookup rows (usage mi) with
           | Some j => Nat.eqb i j
           | None => false
           end
     then [i] else [])
    ++ range_rows rows rest' lo hi (S i)
  end.

(** Modelled from the spec: the map rows a parsed item is paired with. *)
Definition bound_rows (rows : list hmap_item) (it : parsed_item) : list nat :=
  match item_usage it with
  | Variable_usage u =>
    option_list (find_row (row_matches_variable u (is_relative it)) rows 0)
  | ArrayList usages =>
    flat_map (fun u => option_list (array_lookup rows u)) usages
  | ArrayRange lo hi => range_rows rows rows lo hi 0
  end.

(** Modelled from the spec: row [i] matched at least one parsed item. *)
Definition row_bound (rows : list hmap_item) (items : list parsed_item) (i : nat)
  : bool :=
  existsb (fun it => existsb (Nat.eqb i) (bound_rows rows it)) items.

(** Modelled from the spec: the capabilities bit string, one bit per row,
    set when the row matched. *)
Definition hmap_caps (rows : list hmap_item) (items : list parsed_item) : bitstr :=
  fold_left
    (fun caps i => if row_bound rows items i then bit_set caps (Z.of_nat i) else caps)
    (seq 0 (List.length rows))
    (bit_decl (Z.of_nat (List.length rows))).

(** Modelled from the spec: the name of the first required row, in map
    order, that matched nothing; [i] is the index of the head of [rows]. *)
Fixpoint first_unbound_required (bound : nat -> bool) (rows : list hmap_item)
    (i : nat) : option c_string :=
  match rows with
  | [] => None
  | mi :: rest =>
    if required mi && negb (bound i) then Some (name mi)
    else first_unbound_required bound rest (S i)
  end.

(** Modelled from the spec: a record of the dispatch plan, a resolved item
    with the rows it is paired with and, for an array, its last key. *)
Record dispatch_record : Type := {
  rec_item : parsed_item;
  rec_rows : list nat;
  last_key : Z
}.

(** Modelled from the spec: the dispatch plan, in descriptor order; items
    paired with no row are left out. *)
Definition build_plan (rows : list hmap_item) (items : list parsed_item)
  : list dispatch_record :=
  flat_map
    (fun it =>
       match bound_rows rows it with
       | [] => []
       | bound => [{| rec_item := it; rec_rows := bound; last_key := 0 |}]
       end)
    items.

(** Modelled from the spec: what the attach/detach controller of [hmap.c]
    does, in order, to the sink, to the callbacks of the map and
    to the transport. *)
Inductive hmap_event : Type :=
| Ev_sink_create
| Ev_sink (c : evdev_call)
| Ev_callback (row : nat) (st : hmap_cb_state) (hi : option hmap_hid_item)
    (ctx ret : Z)
| Ev_sink_register
| Ev_intr_register
| Ev_intr_deregister
| Ev_sink_destroy
| Ev_plan_release
| Ev_log_callback_error (row : nat) (ret : Z).

Definition is_callback_of (row : nat) (e : hmap_event) : bool :=
  match e with
  | Ev_callback r _ _ _ _ => Nat.eqb r row
  | _ => false
  end.


(** Modelled from the spec: the events (type, code) the resolver collects,
    one per matched event row, with the location that matched. *)
Definition collected (rows : list hmap_item) (items : list parsed_item)
  : list (Z * Z * hid_location) :=
  flat_map
    (fun it =>
       flat_map
         (fun i =>
            match nth_error rows i with
            | Some mi =>
              match payload mi with
              | Event type code =>
                if has_cb mi then [] else [(type, code, location it)]
              | Callback _ => []
              end
            | None => []
            end)
         (bound_rows rows it))
    items.

Fixpoint dedup_by {A K : Type} (eqb : K -> K -> bool) (key : A -> K)
    (seen : list K) (l : list A) : list A :=
  match l with
  | [] => []
  | a :: rest =>
    if existsb (eqb (key a)) seen then dedup_by eqb key seen rest
    else a :: dedup_by eqb key (key a :: seen) rest
  end.

Definition pair_eqb (a b : Z * Z) : bool :=
  (fst a =? fst b) && (snd a =? snd b).

(** Modelled from the spec: [support_event] once per distinct type, then
    [support_key/abs/rel] once per (type, code); an absolute axis comes
    with the logical range of the matched location. *)
Definition announce (evs : list (Z * Z * hid_location)) : list evdev_call :=
  List.map (fun e => Evdev_support_event (fst (fst e)))
    (dedup_by Z.eqb (fun e => fst (fst e)) [] evs)
  ++ flat_map
       (fun e =>
          let '(type, code, loc) := e in
          if type =? EV_KEY then [Evdev_support_key code]
          else if type =? EV_REL then [Evdev_support_rel code]
          else if type =? EV_ABS
          then [Evdev_support_abs code (logical_min loc) (logical_max loc)]
          else [])
       (dedup_by pair_eqb (fun e => fst e) [] evs).

(** Modelled from the spec: the properties set with [hmap_set_evdev_prop],
    announced with [support_prop]. *)
Definition announce_props (props : bitstr) : list evdev_call :=
  flat_map
    (fun p => if bit_test props (Z.of_nat p)
              then [Evdev_support_prop (Z.of_nat p)] else [])
    (seq 0 (Z.to_nat INPUT_PROP_CNT)).

(** Modelled from the spec: the completion rows of a map with their
    callbacks, recorded apart from the plan; [i] is the index of the head
    of [rows]. *)
Fixpoint completion_rows (rows : list hmap_item) (i : nat)
  : list (nat * hmap_cb_t) :=
  match rows with
  | [] => []
  | mi :: rest =>
    match payload mi with
    | Callback cb =>
      if is_completion mi then (i, cb) :: completion_rows rest (S i)
      else completion_rows rest (S i)
    | Event _ _ => completion_rows rest (S i)
    end
  end.

(** Modelled from the spec: one invocation of a completion callback, with
    [(sc, NULL, 0)], and the sink calls it makes. *)
Definition invoke_completion (st : hmap_cb_state) (row : nat) (cb : hmap_cb_t)
  : list hmap_event :=
  let '(calls, ret) := cb st None 0 in
  Ev_callback row st None 0 ret :: List.map Ev_sink calls.

(** Modelled from the spec: a completion row whose callback answered
    [ENOSYS] at attach is attach-only. *)
Definition attach_only (cb : hmap_cb_t) : bool :=
  snd (cb HMAP_CB_IS_ATTACHING None 0) =? ENOSYS.

(** Modelled from the spec: the softc of an attached device. *)
Record hmap_attached : Type := {
  softc : hmap_softc;
  plan : list dispatch_record;
  caps : bitstr;
  completions : list (nat * hmap_cb_t * bool)
}.

(** Modelled from the spec: [hmap_attach], declared in [hmap.h] and
    defined in [hmap.c]; the attach sequence.  [parsed] is the outcome
    of the descriptor parser, the offset of a parse error or the input
    items; [sc] holds the map and the properties registered at probe. *)
Definition hmap_attach (parsed : Z + list parsed_item) (sc : hmap_softc)
  : attach_error + hmap_attached * list hmap_event :=
  match parsed with
  | inl offset => inl (ParseError offset)
  | inr items =>
    let rows := sc_map sc in
    match first_unbound_required (row_bound rows items) rows 0 with
    | Some row => inl (RequiredMapRowUnbound row)
    | None =>
      let compl := completion_rows rows 0 in
      inr ({| softc :=
                {| sc_map := rows;
                   sc_isize := spec_intr_buffer_size (List.map location items);
                   sc_evdev_props := sc_evdev_props sc |};
              plan := build_plan rows items;
              caps := hmap_caps rows items;
              completions :=
                List.map (fun rc => (fst rc, snd rc, attach_only (snd rc))) compl |},
           [Ev_sink_create]
           ++ List.map Ev_sink (announce_props (sc_evdev_props sc))
           ++ List.map Ev_sink (announce (collected rows items))
           ++ flat_map
                (fun rc => invoke_completion HMAP_CB_IS_ATTACHING (fst rc) (snd rc))
                compl
           ++ [Ev_sink_register; Ev_intr_register])
    end
  end.

(** Modelled from the spec: [hmap_detach], declared in [hmap.h] and
    defined in [hmap.c]; the detach sequence; attach-only completion
    rows are skipped. *)
Definition hmap_detach (a : hmap_attached) : list hmap_event :=
  [Ev_intr_deregister]
  ++ flat_map
       (fun c : nat * hmap_cb_t * bool =>
          let '(row, cb, only) := c in
          if only then [] else invoke_completion HMAP_CB_IS_DETACHING row cb)
       (completions a)
  ++ [Ev_sink_destroy; Ev_plan_release].

(** Modelled from the spec: value extraction (4.3).  The report is read as
    little-endian byte-ordered bits, bit 0 of byte 0 the lowest. *)
Fixpoint report_bits (bytes : list byte) : Z :=
  match bytes with
  | [] => 0
  | b :: rest => byte_val b + 256 * report_bits rest
  end.

(** Modelled from the spec: [is_signed] of a location, [logical_min < 0]. *)
Definition is_signed (loc : hid_location) : bool := logical_min loc <? 0.

(** Modelled from the spec: [width] bits from bit [offset] on,
    sign-extended when the location is signed, zero-extended otherwise. *)
Definition extract_value (bytes : list byte) (offset width : Z) (signed : bool) : Z :=
  let raw := Z.land (Z.shiftr (report_bits bytes) offset) (Z.ones width) in
  if signed && Z.testbit raw (width - 1) then raw - Z.shiftl 1 width else raw.

(** Modelled from the spec: what a Variable record emits; a key is down
    for a value that is not 0. *)
Definition event_value (type value : Z) : Z :=
  if type =? EV_KEY then (if value =? 0 then 0 else 1) else value.

(** Modelled from the spec: the usage a slot value [v] of an array stands
    for; 0 and values out of bounds stand for none. *)
Definition slot_usage (kind : usage_kind) (v : Z) : option Z :=
  match kind with
  | Variable_usage _ => None
  | ArrayList usages =>
    if (1 <=? v) && (v <=? Z.of_nat (List.length usages))
    then nth_error usages (Z.to_nat (v - 1)) else None
  | ArrayRange lo hi =>
    if (lo <=? lo + v - 1) && (lo + v - 1 <=? hi) then Some (lo + v - 1) else None
  end.

(** Modelled from the spec: the key code of a usage by the lookup built
    at resolve time, 0 when there is none. *)
Definition usage_code (rows : list hmap_item) (u : Z) : Z :=
  match array_lookup rows u with
  | Some j =>
    match nth_error rows j with
    | Some mi => match payload mi with Event _ code => code | Callback _ => 0 end
    | None => 0
    end
  | None => 0
  end.

(** Modelled from the spec: one slot of an array; [prev] is [last_key]. *)
Definition dispatch_slot (rows : list hmap_item) (kind : usage_kind)
    (bytes : list byte) (loc : hid_location)
    (st : Z * list evdev_call) (slot : nat) : Z * list evdev_call :=
  let '(prev, out) := st in
  let v := extract_value bytes (bit_offset loc + Z.of_nat slot * bit_width loc)
             (bit_width loc) (is_signed loc) in
  let code := match slot_usage kind v with
              | Some u => usage_code rows u
              | None => 0
              end in
  if code =? prev then (prev, out)
  else (code,
        out ++ (if prev =? 0 then [] else [Evdev_push_event EV_KEY prev 0])
            ++ (if code =? 0 then [] else [Evdev_push_event EV_KEY code 1])).

(** The record a callback row is handed at interrupt time. *)
Definition hid_item_of (row : nat) (loc : hid_location) : hmap_hid_item :=
  {| hi_data := Hi_map row; hi_id := report_id loc; hi_loc := loc;
     hi_type := HMAP_TYPE_CALLBACK; hi_is_signed := is_signed loc |}.

(** Modelled from the spec: one record of the plan against the report
    [(id, bytes)].  A record of another report ID is skipped; a callback
    row is invoked with the extracted value and a return value that is not
    0 is logged; an event row pushes its event; an array goes through its
    slots and keeps [last_key]. *)
Definition dispatch_one (rows : list hmap_item) (id : Z) (bytes : list byte)
    (r : dispatch_record) : dispatch_record * list hmap_event :=
  let loc := location (rec_item r) in
  if negb (report_id loc =? id) then (r, [])
  else
    match item_usage (rec_item r) with
    | Variable_usage _ =>
      match rec_rows r with
      | row :: _ =>
        match nth_error rows row with
        | Some mi =>
          let value := extract_value bytes (bit_offset loc) (bit_width loc)
                         (is_signed loc) in
          match payload mi with
          | Callback cb =>
            let '(calls, ret) := cb HMAP_CB_IS_RUNNING (Some (hid_item_of row loc)) value in
            (r, Ev_callback row HMAP_CB_IS_RUNNING (Some (hid_item_of row loc)) value ret
                :: List.map Ev_sink calls
                ++ (if ret =? 0 then [] else [Ev_log_callback_error row ret]))
          | Event type code =>
            (r, [Ev_sink (Evdev_push_event type code (event_value type value))])
          end
        | None => (r, [])
        end
      | [] => (r, [])
      end
    | kind =>
      let '(last, out) :=
        fold_left (dispatch_slot rows kind bytes loc)
          (seq 0 (Z.to_nat (count loc))) (last_key r, []) in
      ({| rec_item := rec_item r; rec_rows := rec_rows r; last_key := last |},
       List.map Ev_sink out)
    end.

(** Modelled from the spec: the records of the plan, in plan order. *)
Fixpoint dispatch_plan (rows : list hmap_item) (id : Z) (bytes : list byte)
    (records : list dispatch_record) : list dispatch_record * list hmap_event :=
  match records with
  | [] => ([], [])
  | r :: rest =>
    let '(r1, t1) := dispatch_one rows id bytes r in
    let '(rest1, t2) := dispatch_plan rows id bytes rest in
    (r1 :: rest1, t1 ++ t2)
  end.

(** Modelled from the spec: the dispatcher (4.3), the interrupt handler
    of [hmap.c], on the report [(id, bytes)]: every record of the plan,
    then [sync()]. *)
Definition hmap_intr (a : hmap_attached) (id : Z) (bytes : list byte)
  : hmap_attached * list hmap_event :=
  let '(records, tr) := dispatch_plan (sc_map (softc a)) id bytes (plan a) in
  ({| softc := softc a; plan := records; caps := caps a;
      completions := completions a |},
   tr ++ [Ev_sink Evdev_sync]).

(** The reports the transport delivers while the device is attached, in
    order. *)
Fixpoint hmap_intr_all (a : hmap_attached) (reports : list (Z * list byte))
  : hmap_attached * list hmap_event :=
  match reports with
  | [] => (a, [])
  | (id, bytes) :: rest =>
    let '(a1, t1) := hmap_intr a id bytes in
    let '(a2, t2) := hmap_intr_all a1 rest in
    (a2, t1 ++ t2)
  end.

(** The invocations of the callback of row [row] in a trace. *)
Definition callbacks_of (row : nat) (tr : list hmap_event) : list hmap_event :=
  filter (is_callback_of row) tr.

(** The bound rows among the first [n] rows of a map. *)
Definition bound_among (rows : list hmap_item) (items : list parsed_item) (n : nat)
  : list nat :=
  filter (row_bound rows items) (seq 0 n).

(** Modelled from the spec: [hmap_add_map], declared in [hmap.h] and
    defined in [hmap.c], registers the map of the child
    driver. *)
Definition hmap_add_map (sc : hmap_softc) (rows : list hmap_item) : hmap_softc :=
  {| sc_map := rows; sc_isize := sc_isize sc;
     sc_evdev_props := sc_evdev_props sc |}.

End HmapCore.

(** ** hpen.c *)

Module Hpen.
Import Errno Evdev Usage Hmap.

Definition hpen_battery_strenght_cb : hmap_cb_t :=
  fun st hi ctx =>
    match st with
    | HMAP_CB_IS_ATTACHING => ([Evdev_support_event EV_PWR], 0)
    | HMAP_CB_IS_RUNNING => ([], 0)
    | _ => ([], 0)
    end.

Definition hpen_compl_digi_cb : hmap_cb_t :=
  fun st hi ctx =>
    ((if hmap_cb_state_eqb st HMAP_CB_IS_ATTACHING
      then [Evdev_support_prop INPUT_PROP_POINTER] else []),
     ENOSYS).

Definition hpen_compl_pen_cb : hmap_cb_t :=
  fun st hi ctx =>
    ((if hmap_cb_state_eqb st HMAP_CB_IS_ATTACHING
      then [Evdev_support_prop INPUT_PROP_DIRECT] else []),
     ENOSYS).

(** The row macros of [hpen.c]: the usage page and the usage ID go to the
    first and second parameter of [HMAP_KEY], [HMAP_ABS] and [HMAP_ABS_CB],
    which [hmap.h] stores in [name] and in [usage]. *)
Definition HPEN_MAP_BUT (usage code : Z) : hmap_item :=
  HMAP_KEY (Int_to_ptr HUP_DIGITIZERS) usage code.
Definition HPEN_MAP_ABS (usage code : Z) : hmap_item :=
  HMAP_ABS (Int_to_ptr HUP_DIGITIZERS) usage code.
Definition HPEN_MAP_ABS_GD (usage code : Z) : hmap_item :=
  HMAP_ABS (Int_to_ptr HUP_GENERIC_DESKTOP) usage code.
Definition HPEN_MAP_ABS_CB (usage : Z) (cb : hmap_cb_t) : hmap_item :=
  HMAP_ABS_CB (Int_to_ptr HUP_DIGITIZERS) usage cb.

Definition hpen_map_digi : list hmap_item :=
  [ set_required (HPEN_MAP_ABS_GD HUG_X ABS_X);
    set_required (HPEN_MAP_ABS_GD HUG_Y ABS_Y);
    HPEN_MAP_ABS HUD_TIP_PRESSURE ABS_PRESSURE;
    HPEN_MAP_ABS HUD_X_TILT ABS_TILT_X;
    HPEN_MAP_ABS HUD_Y_TILT ABS_TILT_Y;
    HPEN_MAP_ABS_CB HUD_BATTERY_STRENGTH hpen_battery_strenght_cb;
    HPEN_MAP_BUT HUD_TOUCH BTN_TOUCH;
    HPEN_MAP_BUT HUD_TIP_SWITCH BTN_TOUCH;
    HPEN_MAP_BUT HUD_SEC_TIP_SWITCH BTN_TOUCH;
    HPEN_MAP_BUT HUD_IN_RANGE BTN_TOOL_PEN;
    HPEN_MAP_BUT HUD_BARREL_SWITCH BTN_STYLUS;
    HPEN_MAP_BUT HUD_INVERT BTN_TOOL_RUBBER;
    HPEN_MAP_BUT HUD_ERASER BTN_TOUCH;
    HPEN_MAP_BUT HUD_TABLET_PICK BTN_STYLUS2;
    HPEN_MAP_BUT HUD_SEC_BARREL_SWITCH BTN_STYLUS2;
    HMAP_COMPL_CB hpen_compl_digi_cb ].

Definition hpen_map_pen : list hmap_item :=
  [ set_required (HPEN_MAP_ABS_GD HUG_X ABS_X);
    set_required (HPEN_MAP_ABS_GD HUG_Y ABS_Y);
    set_required (HPEN_MAP_ABS HUD_TIP_PRESSURE ABS_PRESSURE);
    HPEN_MAP_ABS HUD_X_TILT ABS_TILT_X;
    HPEN_MAP_ABS HUD_Y_TILT ABS_TILT_Y;
    HPEN_MAP_ABS_CB HUD_BATTERY_STRENGTH hpen_battery_strenght_cb;
    set_required (HPEN_MAP_BUT HUD_TIP_SWITCH BTN_TOUCH);
    set_required (HPEN_MAP_BUT HUD_IN_RANGE BTN_TOOL_PEN);
    HPEN_MAP_BUT HUD_BARREL_SWITCH BTN_STYLUS;
    set_required (HPEN_MAP_BUT HUD_INVERT BTN_TOOL_RUBBER);
    set_required (HPEN_MAP_BUT HUD_ERASER BTN_TOUCH);
    HMAP_COMPL_CB hpen_compl_pen_cb ].

(** The softc of a pen after [hpen_probe]: the pen map, no property set. *)
Definition pen_softc : hmap_softc :=
  HmapCore.hmap_add_map
    {| sc_map := []; sc_isize := 0; sc_evdev_props := bit_decl INPUT_PROP_CNT |}
    hpen_map_pen.

(** The softc of a digitizer after [hpen_probe]: the digitizer map. *)
Definition digi_softc : hmap_softc :=
  HmapCore.hmap_add_map
    {| sc_map := []; sc_isize := 0; sc_evdev_props := bit_decl INPUT_PROP_CNT |}
    hpen_map_digi.

Definition abs_variable (u offset width lmax : Z) : HmapCore.parsed_item :=
  {| HmapCore.location :=
       {| Hid.report_id := 0; Hid.bit_offset := offset; Hid.bit_width := width;
          Hid.count := 1; Hid.logical_min := 0; Hid.logical_max := lmax |};
     HmapCore.item_usage := HmapCore.Variable_usage u;
     HmapCore.is_relative := false |}.

(** Input items on the usages the rows of the maps hold: the X and Y axes
    on 16 bits and the battery strength on 8. *)
Definition digi_items : list HmapCore.parsed_item :=
  [ abs_variable HUG_X 0 16 4095;
    abs_variable HUG_Y 16 16 4095;
    abs_variable HUD_BATTERY_STRENGTH 32 8 100 ].

(** A report of [digi_items]: X = 1000, Y = 2000, battery strength 80. *)
Definition digi_report : list byte := [xe8; x03; xd0; x07; x50].



(** Report types of [hid_set_report]. *)
Inductive hid_report_type : Type :=
| HID_INPUT_REPORT
| HID_OUTPUT_REPORT
| HID_FEATURE_REPORT.

(** What [hpen_attach] asks of the layers around it. *)
Inductive hid_call : Type :=
| Hid_set_report (buf : list byte) (len : Z) (type : hid_report_type) (id : Z)
| Hid_dprintf (fmt : string) (args : list Z)
| Hmap_attach_call.

Definition reportbuf : list byte := [x02; x02; x02].

Section Attach.

(** The error code [hid_set_report] answers, and the value [hmap_attach]
    returns; either may depend on everything done to the device so far. *)
Variable hid_set_report : list hid_call -> Z.
Variable hmap_attach : list hid_call -> Z.

(** The Graphire3 block of [hpen_attach]: calls made before
    [hmap_attach], after the calls [done] made earlier. *)
Definition hpen_attach_quirk (quirk : bool) (done : list hid_call) : list hid_call :=
  if quirk then
    let error := hid_set_report done in
    let done1 :=
      done ++ [Hid_set_report reportbuf (Z.of_nat (List.length reportbuf))
                 HID_FEATURE_REPORT (CInt.byte_val (nth 0 reportbuf x00))] in
    if negb (error =? 0) then
      done1 ++ [Hid_dprintf "set feature report failed, error=%d (ignored)" [error]]
    else done1
  else done.

(** [quirk] is [hid_test_quirk(hw, HQ_GRAPHIRE3_4X5)]. *)
Definition hpen_attach (quirk : bool) (done : list hid_call) : Z * list hid_call :=
  let done1 := hpen_attach_quirk quirk done in
  (hmap_attach done1, done1 ++ [Hmap_attach_call]).

End Attach.

End Hpen.

(** ** iichid.c: feature and input reports on request *)

Module IichidReport.
Import CInt Errno.

(** What [iichid_get_report] asks of the kernel. *)
Inductive rcall : Type :=
| R_printf (fmt : string) (args : list Z)
| R_malloc (size : Z)
| R_free
| R_transfer (slave : Z) (cmd : list Z) (rdlen : Z).

(** [EBADMSG] of sys/errno.h. *)
Definition EBADMSG : Z := 89.

(** Conversion to [uint8_t] and to [uint16_t]. *)
Definition u8 (z : Z) : Z := z mod 256.
Definition u16 (z : Z) : Z := z mod 65536.

(** [htole16] on the little-endian hosts the driver runs on. *)
Definition htole16 (x : Z) : Z := x.

(** A zeroed buffer of [n] bytes after a transfer that delivered [resp]. *)
Definition fill (n : Z) (resp : list byte) : list byte :=
  firstn (Z.to_nat n) (resp ++ repeat x00 (Z.to_nat n)).

Definition is_free (c : rcall) : bool :=
  match c with R_free => true | _ => false end.

Definition is_malloc (c : rcall) : bool :=
  match c with R_malloc _ => true | _ => false end.

Definition is_transfer (c : rcall) : bool :=
  match c with R_transfer _ _ _ => true | _ => false end.

Definition is_debug (c : rcall) : bool :=
  match c with R_printf _ _ => true | _ => false end.

(** The calls that are not debug output. *)
Definition kernel_calls (t : list rcall) : list rcall :=
  filter (fun c => negb (is_debug c)) t.

Section GetReport.

(** The opcode of [iichid.h]. *)
Variable I2C_HID_CMD_GET_REPORT : Z.

(** The array [cmd] of [iichid_get_report]. *)
Definition get_report_cmd (cmdreg dtareg type id : Z) : list Z :=
  [ u8 (Z.land cmdreg 255);
    u8 (Z.shiftr cmdreg 8);
    u8 (if 15 <=? id then Z.lor 15 (Z.shiftl type 4) else Z.lor id (Z.shiftl type 4));
    u8 I2C_HID_CMD_GET_REPORT;
    u8 (if 15 <=? id then id else Z.land dtareg 255);
    u8 (if 15 <=? id then Z.land dtareg 255 else Z.shiftr dtareg 8);
    u8 (if 15 <=? id then Z.shiftr dtareg 8 else 0) ].

Definition get_report_cmdlen (id : Z) : Z := if 15 <=? id then 7 else 6.
Definition report_id_len (id : Z) : Z := if 15 <=? id then 2 else 1.

(** [iichid_fetch_buffer]: the write of [cmdlen] command bytes followed by
    the read of [buflen] bytes, both to the slave address [addr << 1]. *)
Definition iichid_fetch_buffer (addr : Z) (cmd : list Z) (cmdlen buflen : Z) : rcall :=
  R_transfer (u16 (Z.shiftl addr 1)) (firstn (Z.to_nat cmdlen) cmd) buflen.

(** [iichid_get_report]: [addr] is the I2C address of the device, [xfer]
    what [iicbus_transfer] answered, its error code and the bytes read.
    Returns the error and what was copied to [buf], if anything was. *)
Definition iichid_get_report (addr wDataRegister wCommandRegister : Z)
    (len type id : Z) (xfer : Z * list byte)
  : Z * option (list byte) * list rcall :=
  let dtareg := htole16 wDataRegister in
  let cmdreg := htole16 wCommandRegister in
  let cmd := get_report_cmd cmdreg dtareg type id in
  let cmdlen := get_report_cmdlen id in
  let report_len := int_add (int_add len 2) (report_id_len id) in
  let tmprep := fill report_len (snd xfer) in
  let entry :=
    [R_printf "HID command I2C_HID_CMD_GET_REPORT %d (type %d, len %d)" [id; type; len];
     R_malloc report_len;
     iichid_fetch_buffer addr cmd cmdlen report_len] in
  if negb (fst xfer =? 0) then
    (EIO, None, entry ++ [R_free])
  else
    let d := Z.lor (byte_val (nth 0 tmprep x00))
                   (Z.shiftl (byte_val (nth 1 tmprep x00)) 8) in
    let size_log :=
      if negb (d =? report_len)
      then [R_printf "response size %d != expected length %d" [d; report_len]]
      else [] in
    let d :=
      if report_id_len id =? 2
      then Z.lor (byte_val (nth 2 tmprep x00))
                 (Z.shiftl (byte_val (nth 3 tmprep x00)) 8)
      else byte_val (nth 2 tmprep x00) in
    if negb (d =? id) then
      (EBADMSG, None,
       entry ++ size_log
       ++ [R_printf "response report id %d != %d" [d; id]; R_free])
    else
      (0,
       Some (firstn (Z.to_nat len)
               (skipn (Z.to_nat (int_add 2 (report_id_len id))) tmprep)),
       entry ++ size_log ++ [R_printf "response: %*D" [report_len]; R_free]).

(** The inverse of the encoding in [cmd], by which the encoding is shown to
    lose nothing: the command register, the report type, the report ID and
    the data register read back from the 6-byte and the 7-byte form. *)
Definition parse_get_report_cmd (cmd : list Z) : option (Z * Z * Z * Z) :=
  match cmd with
  | [c0; c1; b2; op; b4; b5] =>
    if Z.land b2 15 =? 15 then None
    else Some (c0 + 256 * c1, Z.shiftr b2 4, Z.land b2 15, b4 + 256 * b5)
  | [c0; c1; b2; op; b4; b5; b6] =>
    if Z.land b2 15 =? 15
    then Some (c0 + 256 * c1, Z.shiftr b2 4, b4, b5 + 256 * b6)
    else None
  | _ => None
  end.

End GetReport.

End IichidReport.

(** ** iichid.c: discovery through ACPI and initialisation *)

Module IichidAcpi.
Import CInt Errno.

(** The members of [struct iichid_hw] that [iichid.c] uses. *)
Record iichid_hw : Type := {
  hid : string;
  device_addr : Z;
  irq : Z;
  gpio_pin : Z;
  config_reg : Z
}.

(** [bzero(&buf, sizeof(buf))] *)
Definition hw_zero : iichid_hw :=
  {| hid := ""; device_addr := 0; irq := 0; gpio_pin := 0; config_reg := 0 |}.

Definition set_device_addr (v : Z) (hw : iichid_hw) : iichid_hw :=
  {| hid := hid hw; device_addr := v; irq := irq hw; gpio_pin := gpio_pin hw;
     config_reg := config_reg hw |}.

Definition set_irq (v : Z) (hw : iichid_hw) : iichid_hw :=
  {| hid := hid hw; device_addr := device_addr hw; irq := v;
     gpio_pin := gpio_pin hw; config_reg := config_reg hw |}.

Definition set_gpio_pin (v : Z) (hw : iichid_hw) : iichid_hw :=
  {| hid := hid hw; device_addr := device_addr hw; irq := irq hw;
     gpio_pin := v; config_reg := config_reg hw |}.

Definition set_config_reg (v : Z) (hw : iichid_hw) : iichid_hw :=
  {| hid := hid hw; device_addr := device_addr hw; irq := irq hw;
     gpio_pin := gpio_pin hw; config_reg := v |}.

Definition set_hid (v : string) (hw : iichid_hw) : iichid_hw :=
  {| hid := v; device_addr := device_addr hw; irq := irq hw;
     gpio_pin := gpio_pin hw; config_reg := config_reg hw |}.

(** [ACPI_STATUS], as far as the driver tells its values apart. *)
Inductive acpi_status : Type :=
| AE_OK
| AE_TYPE
| AE_other (code : Z).

Definition ACPI_FAILURE (s : acpi_status) : bool :=
  match s with AE_OK => false | _ => true end.

(** Resource types and connection types of ACPICA. *)
Definition ACPI_RESOURCE_SERIAL_TYPE_I2C : Z := 1.
Definition ACPI_RESOURCE_GPIO_TYPE_INT : Z := 0.

(** An [ACPI_RESOURCE] by its [Type]: the members the walk callback
    reads. *)
Inductive acpi_resource : Type :=
| Serial_bus (bus_type : Z) (slave_address : Z)
| Extended_irq (interrupts : list Z)
| Gpio (connection_type : Z) (pin_table : list Z)
| End_tag
| Other_resource (type : Z).

(** An [ACPI_OBJECT] returned by a method. *)
Inductive acpi_object : Type :=
| Obj_integer (value : Z)
| Obj_other (type : Z).

(** The answer of [AcpiEvaluateObject] for [_DSM]: a failure, with or
    without a buffer left behind, or the object returned. *)
Inductive dsm_answer : Type :=
| Dsm_failed (status : acpi_status) (buffer_left : bool)
| Dsm_object (obj : acpi_object).

(** [ACPI_DEVICE_INFO]: whether [Valid] has [ACPI_VALID_HID], and the
    hardware ID. *)
Record acpi_device_info : Type := {
  valid_hid : bool;
  hardware_id : string
}.

(** What ACPI answers for one handle of the namespace. *)
Record acpi_node : Type := {
  node_ids : list string;
  node_sta : option Z;
  node_crs : option (list acpi_resource);
  node_dsm : dsm_answer;
  node_info : option acpi_device_info
}.

(** What discovery asks of the kernel. *)
Inductive acall : Type :=
| A_printf (fmt : string) (args : list Z)
| A_free_dsm_result
| A_free_device_info
| A_free_children
| A_add_child
| A_set_addr (addr : Z)
| A_set_irq_resource (irq : Z)
| A_fetch_hid_descriptor (reg : Z).

Definition iichid_ids : list string := ["PNP0C50"; "ACPI0C50"].

(** [acpi_MatchHid(handle, id)] *)
Definition acpi_MatchHid (node : acpi_node) (id : string) : bool :=
  existsb (String.eqb id) (node_ids node).

(** The loop of [acpi_is_iichid]: the id it stops at, if any. *)
Fixpoint first_matching_id (node : acpi_node) (ids : list string) : option string :=
  match ids with
  | [] => None
  | id :: rest =>
    if acpi_MatchHid node id then Some id else first_matching_id node rest
  end.

Definition iichid_res_walk_cb (res : acpi_resource) (hw : iichid_hw)
  : acpi_status * iichid_hw * list acall :=
  match res with
  | Serial_bus bus_type slave_address =>
    if negb (bus_type =? ACPI_RESOURCE_SERIAL_TYPE_I2C) then
      (AE_TYPE, hw,
       [A_printf "%s: wrong bus type, should be %d is %d"
          [ACPI_RESOURCE_SERIAL_TYPE_I2C; bus_type]])
    else (AE_OK, set_device_addr (Iichid.le16toh slave_address) hw, [])
  | Extended_irq interrupts =>
    if 0 <? Z.of_nat (List.length interrupts)
    then (AE_OK, set_irq (nth 0 interrupts 0) hw, [])
    else (AE_OK, hw, [])
  | Gpio connection_type pin_table =>
    if connection_type =? ACPI_RESOURCE_GPIO_TYPE_INT
    then (AE_OK, set_gpio_pin (nth 0 pin_table 0) hw, [])
    else (AE_OK, hw, [])
  | End_tag => (AE_OK, hw, [])
  | Other_resource type =>
    (AE_OK, hw,
     [A_printf "%s: unexpected type %d while parsing Current Resource Settings (_CRS)"
        [type]])
  end.

(** A serial bus connection that is not I2C. *)
Definition wrong_bus (res : acpi_resource) : bool :=
  match res with
  | Serial_bus bus_type _ => negb (bus_type =? ACPI_RESOURCE_SERIAL_TYPE_I2C)
  | _ => false
  end.

(** [AcpiWalkResources] with [iichid_res_walk_cb]: the callback sees the
    resources in order and the walk stops at the first status that is not
    [AE_OK]. *)
Fixpoint walk_resources (resources : list acpi_resource) (hw : iichid_hw)
  : acpi_status * iichid_hw * list acall :=
  match resources with
  | [] => (AE_OK, hw, [])
  | res :: rest =>
    let '(status, hw1, t1) := iichid_res_walk_cb res hw in
    if ACPI_FAILURE status then (status, hw1, t1)
    else
      let '(status2, hw2, t2) := walk_resources rest hw1 in
      (status2, hw2, t1 ++ t2)
  end.

Section Discovery.

(** [ACPI_DEVICE_PRESENT] of [acpivar.h], and [sizeof(hw->hid)]. *)
Variable ACPI_DEVICE_PRESENT : Z -> bool.
Variable hid_size : nat.

Definition acpi_is_iichid (node : acpi_node) : bool :=
  match first_matching_id node iichid_ids with
  | None => false
  | Some _ =>
    match node_sta node with
    | None => true
    | Some sta => if ACPI_DEVICE_PRESENT sta then true else false
    end
  end.

(** [strlcpy(dst, src, size)] into a buffer of [size] bytes. *)
Definition strlcpy (src : string) (size : nat) : string :=
  substring 0 (size - 1) src.

Definition iichid_get_hw (node : acpi_node) (hw : iichid_hw)
  : Z * iichid_hw * list acall :=
  match node_crs node with
  | None => (ENXIO, hw, [A_printf "%s: could not evaluate _CRS" []])
  | Some resources =>
    let '(status, hw1, t1) := walk_resources resources hw in
    if ACPI_FAILURE status then
      (ENXIO, hw1, t1 ++ [A_printf "%s: could not evaluate _CRS" []])
    else
      match node_dsm node with
      | Dsm_failed _ buffer_left =>
        (ENXIO, hw1,
         t1 ++ [A_printf "%s: error evaluating _DSM" []]
         ++ (if buffer_left then [A_free_dsm_result] else []))
      | Dsm_object (Obj_other _) =>
        (ENXIO, hw1,
         t1 ++ [A_printf "%s: _DSM should return descriptor register address as integer" [];
                A_free_dsm_result])
      | Dsm_object (Obj_integer value) =>
        let hw2 := set_config_reg value hw1 in
        match node_info node with
        | None =>
          (ENXIO, hw2,
           t1 ++ [A_free_dsm_result;
                  A_printf "%s: error evaluating AcpiGetObjectInfo" []])
        | Some info =>
          (0,
           (if valid_hid info then set_hid (strlcpy (hardware_id info) hid_size) hw2
            else hw2),
           t1 ++ [A_free_dsm_result; A_free_device_info])
        end
      end
  end.

(** [iichid_get_device_hw_cb]: [addr], a [uint16_t], is read from [hw] on
    entry. *)
Definition iichid_get_device_hw_cb (node : acpi_node) (hw : iichid_hw)
  : iichid_hw * list acall :=
  let addr := IichidReport.u16 (device_addr hw) in
  if acpi_is_iichid node then
    let '(error, buf, t) := iichid_get_hw node hw_zero in
    if error =? 0 then
      if addr =? device_addr hw then (buf, t) else (hw, t)
    else (hw, t)
  else (hw, []).

(** A node the callback can read: an I2C HID device whose hardware
    description [iichid_get_hw] delivers into a zeroed buffer. *)
Definition readable (node : acpi_node) : bool :=
  acpi_is_iichid node && (fst (fst (iichid_get_hw node hw_zero)) =? 0).

Definition node_hw (node : acpi_node) : iichid_hw :=
  snd (fst (iichid_get_hw node hw_zero)).

(** [AcpiWalkNamespace] with [iichid_get_device_hw_cb] over the handles
    below the controller; the callback always answers [AE_OK]. *)
Fixpoint walk_device_hw (nodes : list acpi_node) (hw : iichid_hw)
  : iichid_hw * list acall :=
  match nodes with
  | [] => (hw, [])
  | node :: rest =>
    let '(hw1, t1) := iichid_get_device_hw_cb node hw in
    let '(hw2, t2) := walk_device_hw rest hw1 in
    (hw2, t1 ++ t2)
  end.

(** [iichid_get_device_hw]: [bus_addr] is [iicbus_get_addr(dev)]. *)
Definition iichid_get_device_hw (bus_addr : Z) (nodes : list acpi_node)
    (hw : iichid_hw) : Z * iichid_hw * list acall :=
  let '(hw1, t) := walk_device_hw nodes (set_device_addr bus_addr hw) in
  (0, hw1, t).

(** What the kernel answers during one [iichid_identify_cb]: what the
    uninitialised local [hw] holds, whether [device_get_children] and
    [BUS_ADD_CHILD] succeed, and the result of [bus_set_resource]. *)
Record identify_env : Type := {
  stack_hw : iichid_hw;
  children_ok : bool;
  add_child_ok : bool;
  set_resource_err : Z
}.

(** The scan of [iichid_identify_cb] for a child that has the address. *)
Fixpoint addr_in_use (children : list Z) (addr : Z) : bool :=
  match children with
  | [] => false
  | c :: rest => if c =? addr then true else addr_in_use rest addr
  end.

(** [iichid_identify_cb]: [children] are the I2C addresses of the children
    of the bus, in order. *)
Definition iichid_identify_cb (node : acpi_node) (env : identify_env)
    (children : list Z) : list Z * list acall :=
  if negb (acpi_is_iichid node) then (children, [])
  else
    let '(error, hw, t) := iichid_get_hw node (stack_hw env) in
    if negb (error =? 0) then (children, t)
    else if negb (children_ok env) then (children, t)
    else if addr_in_use children (device_addr hw) then
      (children, t ++ [A_free_children])
    else if negb (add_child_ok env) then
      (children, t ++ [A_free_children; A_add_child; A_printf "add child failed" []])
    else
      (children ++ [device_addr hw],
       t ++ [A_free_children; A_add_child; A_set_addr (device_addr hw)]
       ++ (if 0 <? irq hw
           then A_set_irq_resource (irq hw)
                :: (if negb (set_resource_err env =? 0)
                    then [A_printf "irq assignment failed" []] else [])
           else [])).

(** [iichid_identify]: the walk of the namespace with
    [iichid_identify_cb]. *)
Fixpoint iichid_identify (nodes : list (acpi_node * identify_env))
    (children : list Z) : list Z * list acall :=
  match nodes with
  | [] => (children, [])
  | (node, env) :: rest =>
    let '(children1, t1) := iichid_identify_cb node env children in
    let '(children2, t2) := iichid_identify rest children1 in
    (children2, t1 ++ t2)
  end.





End Discovery.

Definition is_free_dsm (c : acall) : bool :=
  match c with A_free_dsm_result => true | _ => false end.

Definition is_free_info (c : acall) : bool :=
  match c with A_free_device_info => true | _ => false end.

Definition is_add_child (c : acall) : bool :=
  match c with A_add_child => true | _ => false end.


(** [ACPI_DEVICE_PRESENT] as [acpivar.h] of the kernel defines it: present
    and functioning.  Used in the examples. *)
Definition acpi_device_present (sta : Z) : bool := Z.land sta 9 =? 9.

(** An I2C HID device as ACPI tables describe one: the slave address, a
    GPIO interrupt, the descriptor register from [_DSM]. *)
Definition touchpad_node (addr : Z) : acpi_node :=
  {| node_ids := ["PNP0C50"];
     node_sta := Some 15;
     node_crs := Some [Serial_bus ACPI_RESOURCE_SERIAL_TYPE_I2C addr;
                       Gpio ACPI_RESOURCE_GPIO_TYPE_INT [27]; End_tag];
     node_dsm := Dsm_object (Obj_integer 32);
     node_info := Some {| valid_hid := true; hardware_id := "ELAN0001" |} |}.



Definition identify_env_ok : identify_env :=
  {| stack_hw := hw_zero; children_ok := true; add_child_ok := true;
     set_resource_err := 0 |}.

End IichidAcpi.

(** ** hpen.c: identify and probe *)

Module HpenProbe.
Import Usage Hmap Hpen.

Definition HUD_PEN : Z := 2.
Definition BUS_PROBE_DEFAULT : Z := -20.

(** What [hpen_identify] and [hpen_probe] ask of hidbus and hmap. *)
Inductive pcall : Type :=
| P_set_report_descr (descr : list byte)
| P_lookup_driver_info
| P_set_debug_var
| P_add_map (rows : list hmap_item)
| P_set_desc (desc : string).

Section Identify.

(** The canned descriptors [UHID_GRAPHIRE_REPORT_DESCR()] and
    [UHID_GRAPHIRE3_4X5_REPORT_DESCR()] of [usb_rdesc.h]. *)
Variable hpen_graphire_report_descr : list byte.
Variable hpen_graphire3_4x5_report_descr : list byte.

(** [graphire] and [graphire3] are [hid_test_quirk] for [HQ_GRAPHIRE] and
    [HQ_GRAPHIRE3_4X5]. *)
Definition hpen_identify (graphire graphire3 : bool) : list pcall :=
  if graphire then [P_set_report_descr hpen_graphire_report_descr]
  else if graphire3 then [P_set_report_descr hpen_graphire3_4x5_report_descr]
  else [].

End Identify.

(** [hpen_probe]: [lookup] is the result of [hidbus_lookup_driver_info],
    [tlc_usage] that of [hidbus_get_usage], [add_map] the result of
    [hmap_add_map]. *)
Definition hpen_probe (lookup tlc_usage add_map : Z) : Z * list pcall :=
  if negb (lookup =? 0) then (lookup, [P_lookup_driver_info])
  else
    let is_pen := tlc_usage =? HID_USAGE2 HUP_DIGITIZERS HUD_PEN in
    let rows := if is_pen then hpen_map_pen else hpen_map_digi in
    let t := [P_lookup_driver_info; P_set_debug_var; P_add_map rows] in
    if negb (add_map =? 0) then (add_map, t)
    else (BUS_PROBE_DEFAULT, t ++ [P_set_desc (if is_pen then "Pen" else "Digitizer")]).

Definition is_add_map (c : pcall) : bool :=
  match c with P_add_map _ => true | _ => false end.

Definition is_set_desc (c : pcall) : bool :=
  match c with P_set_desc _ => true | _ => false end.

End HpenProbe.

(** * Properties of the transport *)

Section TransportProperties.
Import CInt Errno Iichid.

Ltac unfold_m :=
  unfold iichid_event_task, iichid_fetch_input_report, event_task_out,
    iichid_sysctl_sampling_rate_handler, iichid_set_intr, iichid_destroy,
    iichid_get_report_desc,
    iichid_setup_callout, iichid_reset_callout, iichid_teardown_callout,
    iichid_setup_interrupt, iichid_teardown_interrupt,
    DPRINTF, when, bind, gets, modify, call, ret, state, result, trace in *.

Ltac case_if :=
  match goal with
  | |- context [if ?b then _ else _] => destruct b eqn:?
  | |- context [match ?x with Some _ => _ | None => _ end] => destruct x eqn:?
  end.

Ltac boolp :=
  repeat match goal with
  | H : _ && _ = true |- _ => apply andb_true_iff in H; destruct H
  | H : _ && _ = false |- _ => apply andb_false_iff in H; destruct H
  | H : _ || _ = true |- _ => apply orb_true_iff in H; destruct H
  | H : _ || _ = false |- _ => apply orb_false_iff in H; destruct H
  | H : negb _ = true |- _ => apply negb_true_iff in H
  | H : negb _ = false |- _ => apply negb_false_iff in H
  | H : (_ <? _) = true |- _ => apply Z.ltb_lt in H
  | H : (_ <? _) = false |- _ => apply Z.ltb_ge in H
  | H : (_ <=? _) = true |- _ => apply Z.leb_le in H
  | H : (_ <=? _) = false |- _ => apply Z.leb_gt in H
  | H : (_ =? _) = true |- _ => apply Z.eqb_eq in H
  | H : (_ =? _) = false |- _ => apply Z.eqb_neq in H
  | H : is_null ?p = true |- _ => destruct p; [discriminate H | clear H]
  | H : is_null ?p = false |- _ => destruct p; [clear H | discriminate H]
  end.

(** Runs a transport function symbolically, one branch per path. *)
Ltac run_m := unfold_m; repeat (cbn; try case_if); cbn; boolp.

(** *** C integers *)

Lemma int_wrap_small z : INT_MIN <= z <= INT_MAX -> int_wrap z = z.
Proof.
  unfold int_wrap, INT_MIN, INT_MAX. intros H.
  rewrite Z.mod_small by lia. lia.
Qed.

Lemma byte_val_range b : 0 <= byte_val b < 256.
Proof.
  unfold byte_val. pose proof (Byte.to_N_bounded b) as H. lia.
Qed.

(** The length field is the little-endian 16-bit number of the first two
    bytes. *)
Lemma report_length_le16 data :
  report_length data = byte_val (nth 0 data x00) + 256 * byte_val (nth 1 data x00).
Proof.
  unfold report_length.
  pose proof (byte_val_range (nth 0 data x00)) as H0.
  pose proof (byte_val_range (nth 1 data x00)) as H1.
  set (a := byte_val (nth 0 data x00)) in *.
  set (b := byte_val (nth 1 data x00)) in *.
  rewrite Z.shiftl_mul_pow2 by lia.
  pose proof (Z.add_lor_land a (b * 2 ^ 8)) as Hsum.
  assert (Hland : Z.land a (b * 2 ^ 8) = 0);
    [| rewrite Hland in Hsum; change (2 ^ 8) with 256 in *; lia].
  apply Z.bits_inj'. intros n Hn.
  rewrite Z.land_spec, Z.bits_0.
  destruct (Z.lt_ge_cases n 8) as [Hlt | Hge].
  - rewrite (Z.mul_pow2_bits_low b 8 n) by lia. apply andb_false_r.
  - replace (Z.testbit a n) with false; [reflexivity |].
    symmetry. destruct (Z.eq_dec a 0) as [-> | Hz]; [apply Z.bits_0 |].
    apply Z.bits_above_log2; [lia |].
    apply Z.log2_lt_pow2; [lia |].
    apply Z.lt_le_trans with (2 ^ 8); [change (2 ^ 8) with 256; lia |].
    apply Z.pow_le_mono_r; lia.
Qed.

Lemma report_length_range data : 0 <= report_length data <= 65535.
Proof.
  rewrite report_length_le16.
  pose proof (byte_val_range (nth 0 data x00)).
  pose proof (byte_val_range (nth 1 data x00)). lia.
Qed.

(** *** The event task *)

Lemma event_task_state hz xfer sc :
  state (iichid_event_task hz xfer sc) =
  if fst xfer =? 0 then set_input_buf (Some (snd xfer)) sc else sc.
Proof.
  destruct xfer as [e b]. run_m; try reflexivity; discriminate.
Qed.

Lemma event_task_trace hz err buf sc :
  trace (iichid_event_task hz (err, buf) sc) =
  (if err =? 0 then
     if 2 <? report_length buf
     then [Intr_handler (intr_handler sc) (intr_sc sc) (skipn 2 buf)
             (report_length buf - 2)]
     else []
   else [Device_printf "could not retrieve input report (%d)" [err];
         Device_printf "an error occured" []])
  ++ rearm hz sc.
Proof.
  pose proof (report_length_range buf) as Hr.
  unfold rearm. destruct sc. run_m; try reflexivity; try (exfalso; lia);
    unfold int_sub; rewrite int_wrap_small by (unfold INT_MIN, INT_MAX; lia);
    reflexivity.
Qed.

Lemma handler_calls_rearm hz sc : handler_calls (rearm hz sc) = [].
Proof. unfold rearm. destruct (_ && _); reflexivity. Qed.

Lemma printfs_rearm hz sc : printfs (rearm hz sc) = [].
Proof. unfold rearm. destruct (_ && _); reflexivity. Qed.

(** C9, as the code has it.  On every run of the event task the registered
    interrupt handler is invoked if and only if the fetch of the input
    report succeeded and the little-endian 16-bit length field at the head
    of the report is strictly greater than 2; it is given the buffer from
    byte offset 2 and the length field minus 2.  A report whose length field
    is at most 2 is dropped silently; a fetch error is reported on the
    console with two messages and the report is dropped.  In both cases the
    softc is left as it was (after a successful fetch the input buffer holds
    the bytes read) and nothing beyond the re-arming of the polling callout
    is asked of the kernel: the device stays attached. *)
Theorem event_task_dispatch :
  forall (hz : Z) (sc : iichid) (err : Z) (buf : list byte),
    let r := iichid_event_task hz (err, buf) sc in
    let len := report_length buf in
    len = byte_val (nth 0 buf x00) + 256 * byte_val (nth 1 buf x00)
    /\ handler_calls (trace r) =
       (if (err =? 0) && (2 <? len)
        then [Intr_handler (intr_handler sc) (intr_sc sc) (skipn 2 buf) (len - 2)]
        else [])
    /\ (err = 0 -> len <= 2 -> trace r = rearm hz sc)
    /\ (err <> 0 ->
        trace r =
        [Device_printf "could not retrieve input report (%d)" [err];
         Device_printf "an error occured" []] ++ rearm hz sc)
    /\ state r = (if err =? 0 then set_input_buf (Some buf) sc else sc).
Proof.
  intros hz sc err buf r len. subst r len.
  split; [apply report_length_le16 |].
  rewrite event_task_trace, event_task_state. cbn [fst snd].
  unfold handler_calls. rewrite filter_app.
  fold (handler_calls (rearm hz sc)). rewrite handler_calls_rearm, app_nil_r.
  repeat split.
  - destruct (err =? 0), (2 <? report_length buf); reflexivity.
  - intros -> Hle. cbn. apply Z.ltb_ge in Hle. rewrite Hle. reflexivity.
  - intros Hne. apply Z.eqb_neq in Hne. rewrite Hne. reflexivity.
Qed.

Lemma event_task_dispatch_witness :
  handler_calls
    (trace (iichid_event_task 1000 (0, [x05; x00; x01; x02; x03]) attached_example))
  = [Intr_handler 7 8 [x01; x02; x03] 3]
  /\ trace (iichid_event_task 1000 (0, [x02; x00; x01; x02; x03]) attached_example) = []
  /\ printfs (trace (iichid_event_task 1000 (EIO, []) attached_example))
     = [Device_printf "could not retrieve input report (%d)" [EIO];
        Device_printf "an error occured" []].
Proof.
  split; [| split].
  - exact (proj1 (proj2 (event_task_dispatch 1000 attached_example 0
                           [x05; x00; x01; x02; x03]))).
  - apply (proj1 (proj2 (proj2 (event_task_dispatch 1000 attached_example 0
                                  [x02; x00; x01; x02; x03]))));
      [reflexivity | vm_compute; discriminate].
  - rewrite (proj1 (proj2 (proj2 (proj2 (event_task_dispatch 1000 attached_example
                                            EIO [])))))
      by discriminate.
    reflexivity.
Defined.

(** C9, as stated, fails on a fetch error: the report is dropped, but not
    silently.  With [iicbus_transfer] answering [EIO] the console gets two
    messages. *)
Lemma fetch_error_is_logged :
  ~ silently_dropped
      (trace (iichid_event_task 1000 (EIO, [x05; x00; x01; x02; x03]) attached_example)).
Proof.
  unfold silently_dropped. intros [_ H]. vm_compute in H. discriminate H.
Qed.

(** *** The size of the input buffer *)

Lemma get_report_desc_input_size desc_len report_size sc :
  input_size (state (iichid_get_report_desc desc_len 0 report_size sc)) =
  int_add report_size 2.
Proof. run_m; reflexivity. Qed.

Lemma set_intr_buffer hz dflt env intr ctx sc tq :
  tq_created env = Some tq ->
  input_size sc <> 0 ->
  let r := iichid_set_intr hz dflt env intr ctx sc in
  input_size (state r) = input_size sc
  /\ In (Malloc (input_size sc)) (trace r)
  /\ input_buf (state r) = Some (repeat x00 (Z.to_nat (input_size sc))).
Proof.
  intros Htq Hsize. apply Z.eqb_neq in Hsize.
  destruct sc, env. cbn in Htq, Hsize. subst.
  unfold_m. cbn. rewrite Hsize.
  repeat (cbn; try case_if); cbn; repeat split; auto 10.
Qed.

(** C6, as the code has it.  Once the report descriptor has been fetched,
    the input buffer that [iichid_set_intr] allocates has the size
    [hid_report_size] found for the longest input report plus exactly 2,
    the two bytes of the length field that precedes every input report on
    the wire; so it has the maximum input-report size across report IDs
    plus 2 whenever that maximum is what [hid_report_size] returned. *)
Theorem intr_buffer_is_report_size_plus_two :
  forall (hz dflt desc_len report_size : Z)
         (env : set_intr_env) (intr ctx : Z) (sc : iichid) (tq : Z),
    tq_created env = Some tq ->
    0 <= report_size -> report_size + 2 <= INT_MAX ->
    let sc1 := state (iichid_get_report_desc desc_len 0 report_size sc) in
    let r := iichid_set_intr hz dflt env intr ctx sc1 in
    (input_size (state r) = report_size + 2
     /\ In (Malloc (report_size + 2)) (trace r)
     /\ input_buf (state r) = Some (repeat x00 (Z.to_nat (report_size + 2))))
    /\ (forall items,
          report_size = Hid.hid_report_size items ->
          input_size (state r) = Hid.hid_report_size items + 2
          /\ input_size (state r) <> Hid.spec_intr_buffer_size items).
Proof.
  intros hz dflt desc_len report_size env intr ctx sc tq Htq Hpos Hmax sc1 r.
  assert (Hsize : input_size sc1 = report_size + 2).
  { subst sc1. rewrite get_report_desc_input_size. unfold int_add.
    apply int_wrap_small. unfold INT_MIN, INT_MAX in *. lia. }
  assert (Hbuf : input_size (state r) = report_size + 2
                 /\ In (Malloc (report_size + 2)) (trace r)
                 /\ input_buf (state r) = Some (repeat x00 (Z.to_nat (report_size + 2)))).
  { rewrite <- Hsize. subst r.
    apply set_intr_buffer with (tq := tq); [assumption | lia]. }
  split; [exact Hbuf |].
  intros items Hitems. destruct Hbuf as [Hinput _].
  unfold Hid.spec_intr_buffer_size. rewrite Hinput, Hitems. lia.
Qed.

Lemma intr_buffer_is_report_size_plus_two_witness :
  (tq_created env_irq = Some 1
   /\ 0 <= Hid.hid_report_size eight_bytes
   /\ Hid.hid_report_size eight_bytes + 2 <= INT_MAX)
  /\ input_size
       (state (iichid_set_intr 1000 60 env_irq 7 8
                 (state (iichid_get_report_desc 64 0 (Hid.hid_report_size eight_bytes)
                           (softc_zero 12)))))
     = Hid.hid_report_size eight_bytes + 2.
Proof.
  assert (Hpos : 0 <= Hid.hid_report_size eight_bytes)
    by (vm_compute; discriminate).
  assert (Hmax : Hid.hid_report_size eight_bytes + 2 <= INT_MAX)
    by (vm_compute; discriminate).
  split; [auto |].
  exact (proj1 (proj1 (intr_buffer_is_report_size_plus_two 1000 60 64
                         (Hid.hid_report_size eight_bytes)
                         env_irq 7 8 (softc_zero 12) 1 eq_refl Hpos Hmax))).
Defined.

(** C6, as stated, fails.  For a descriptor without report IDs whose
    longest input report has 8 bytes, which is what [hid_report_size]
    returns for it, the buffer has 10 bytes and not the 8 + 1 of the
    claim. *)
Lemma intr_buffer_not_report_size_plus_one :
  Hid.hid_report_size eight_bytes = 8
  /\ Hid.spec_intr_buffer_size eight_bytes = 9
  /\ input_size
       (state (iichid_set_intr 1000 60 env_irq 7 8
                 (state (iichid_get_report_desc 64 0 (Hid.hid_report_size eight_bytes)
                           (softc_zero 12)))))
     = 10
  /\ input_size
       (state (iichid_set_intr 1000 60 env_irq 7 8
                 (state (iichid_get_report_desc 64 0 (Hid.hid_report_size eight_bytes)
                           (softc_zero 12)))))
     <> Hid.spec_intr_buffer_size eight_bytes.
Proof.
  split; [reflexivity |]. split; [reflexivity |]. split; [reflexivity |].
  vm_compute. discriminate.
Qed.

(** *** Destroying the transport twice *)

(** C7 at a device attached in interrupt mode: the second
    [iichid_destroy] frees the input buffer again, releases the IRQ
    resource again and blocks, drains and frees the taskqueue again. *)
Theorem iichid_destroy_twice_releases_again :
  let once := iichid_destroy attached_example in
  trace once =
    [Free_input_buf; Callout_stop; Device_printf "tore callout down" [];
     Bus_teardown_intr 2 3; Bus_release_resource 0 2;
     Taskqueue_block 1; Taskqueue_drain 1; Taskqueue_free 1]
  /\ trace (iichid_destroy (state once)) =
    [Free_input_buf; Callout_stop; Device_printf "tore callout down" [];
     Bus_release_resource 0 2;
     Taskqueue_block 1; Taskqueue_drain 1; Taskqueue_free 1].
Proof. split; reflexivity. Qed.

(** What a first [iichid_destroy] resets, and what it leaves in place. *)
Lemma iichid_destroy_state sc :
  state (iichid_destroy sc) = set_irq_cookie None (set_callout_setup false sc).
Proof. destruct sc. run_m; reflexivity. Qed.

(** Whatever the device, a second [iichid_destroy] frees again each of the
    input buffer, the IRQ resource and the taskqueue that the first one
    released. *)
Lemma iichid_destroy_twice_in_general sc buf res tq :
  input_buf sc = Some buf -> irq_res sc = Some res -> taskqueue sc = Some tq ->
  let again := trace (iichid_destroy (state (iichid_destroy sc))) in
  In Free_input_buf again
  /\ In (Bus_release_resource (irq_rid sc) res) again
  /\ In (Taskqueue_free tq) again.
Proof.
  intros Hb Hr Ht. rewrite iichid_destroy_state.
  destruct sc. cbn in Hb, Hr, Ht. subst. cbn. auto 10.
Qed.

(** *** Polling mode without IRQ resource *)

Lemma sysctl_preserves hz req sc :
  polling_inv sc -> polling_inv (state (iichid_sysctl_sampling_rate_handler hz req sc)).
Proof.
  unfold polling_inv. intros H.
  run_m; intros; auto; try lia; try congruence.
Qed.

Lemma sysctl_rejects hz req sc :
  irq_res sc = None -> new_value req < 0 ->
  iichid_sysctl_sampling_rate_handler hz req sc = (handle_int_err req, sc, []).
Proof.
  intros Hres Hneg. destruct sc; cbn in Hres; subst.
  run_m; try reflexivity; exfalso; lia.
Qed.

Lemma set_intr_establishes hz dflt env intr ctx sc :
  0 <= dflt ->
  result (iichid_set_intr hz dflt env intr ctx sc) = 0 ->
  polling_inv (state (iichid_set_intr hz dflt env intr ctx sc))
  /\ (irq_res (state (iichid_set_intr hz dflt env intr ctx sc)) = None ->
      sampling_rate (state (iichid_set_intr hz dflt env intr ctx sc)) = dflt).
Proof.
  unfold polling_inv. intros Hd.
  run_m; intros; split; intros; auto; try lia; try congruence; try discriminate.
Qed.

Lemma set_intr_preserves hz dflt env intr ctx sc :
  0 <= dflt -> polling_inv sc ->
  polling_inv (state (iichid_set_intr hz dflt env intr ctx sc)).
Proof.
  unfold polling_inv. intros Hd.
  run_m; intros; auto; try lia; try congruence; try discriminate.
Qed.

Lemma get_report_desc_preserves desc_len fetch report_size sc :
  polling_inv sc ->
  polling_inv (state (iichid_get_report_desc desc_len fetch report_size sc)).
Proof. unfold polling_inv. run_m; auto. Qed.

Lemma event_task_preserves hz xfer sc :
  polling_inv sc -> polling_inv (state (iichid_event_task hz xfer sc)).
Proof.
  rewrite event_task_state. unfold polling_inv.
  destruct (fst xfer =? 0); auto.
Qed.

Lemma destroy_preserves sc :
  polling_inv sc -> polling_inv (state (iichid_destroy sc)).
Proof. rewrite iichid_destroy_state. unfold polling_inv. auto. Qed.

Lemma run_op_preserves hz dflt o sc :
  0 <= dflt -> polling_inv sc -> polling_inv (run_op hz dflt o sc).
Proof.
  intros Hd Hinv. destruct o; cbn [run_op].
  - now apply get_report_desc_preserves.
  - now apply set_intr_preserves.
  - now apply sysctl_preserves.
  - now apply event_task_preserves.
  - now apply destroy_preserves.
Qed.

(** C10.  With a default sampling rate that is not negative, every softc
    the transport reaches from the zero-filled one is in polling mode
    ([sampling_rate >= 0]) whenever its [irq_res] is NULL;
    [iichid_set_intr], when it succeeds, establishes this from any softc,
    with the default sampling rate where no IRQ resource could be
    allocated; and a sysctl update that carries a negative value while
    [irq_res] is NULL changes nothing: the softc (and its sampling rate) is
    left as it was and no kernel service is called. *)
Theorem polling_invariant :
  forall (hz dflt : Z),
    0 <= dflt ->
    (forall sc, reachable hz dflt sc -> polling_inv sc)
    /\ (forall env intr ctx sc,
          let r := iichid_set_intr hz dflt env intr ctx sc in
          result r = 0 ->
          polling_inv (state r)
          /\ (irq_res (state r) = None -> sampling_rate (state r) = dflt))
    /\ (forall req sc,
          irq_res sc = None -> new_value req < 0 ->
          let r := iichid_sysctl_sampling_rate_handler hz req sc in
          sampling_rate (state r) = sampling_rate sc
          /\ state r = sc /\ trace r = []).
Proof.
  intros hz dflt Hd. split; [| split].
  - intros sc Hreach. induction Hreach as [len | sc o _ IH].
    + intros _. cbn. lia.
    + now apply run_op_preserves.
  - intros env intr ctx sc r Hres. now apply set_intr_establishes.
  - intros req sc Hnull Hneg r. subst r.
    rewrite sysctl_rejects by assumption. cbn. auto.
Qed.

Lemma polling_invariant_witness :
  0 <= 60
  /\ polling_inv (state (iichid_set_intr 1000 60 env_no_irq 7 8 (softc_zero 12)))
  /\ sampling_rate
       (state (iichid_sysctl_sampling_rate_handler 1000
                 {| handle_int_err := 0; newptr := true; new_value := -1;
                    sysctl_intr := (0, Some 3) |}
                 (state (iichid_set_intr 1000 60 env_no_irq 7 8 (softc_zero 12)))))
     = 60.
Proof.
  assert (H60 : 0 <= 60) by (vm_compute; discriminate).
  split; [exact H60 |]. split.
  - apply (proj1 (proj1 (proj2 (polling_invariant 1000 60 H60))
                    env_no_irq 7 8 (softc_zero 12) eq_refl)).
  - apply (proj1 (proj2 (proj2 (polling_invariant 1000 60 H60))
                    {| handle_int_err := 0; newptr := true; new_value := -1;
                       sysctl_intr := (0, Some 3) |}
                    (state (iichid_set_intr 1000 60 env_no_irq 7 8 (softc_zero 12)))
                    eq_refl eq_refl)).
Defined.


(** *** The sysctl handler: requests that update nothing *)

(** X1.  A request that only reads the sampling rate ([req->newptr] is
    NULL), one for which [sysctl_handle_int] fails, or one that writes the
    value the softc already has, changes nothing and calls no kernel
    service; the handler returns what [sysctl_handle_int] returned. *)
Theorem sysctl_without_update_changes_nothing :
  forall (hz : Z) (req : sysctl_req) (sc : iichid),
    handle_int_err req <> 0 \/ newptr req = false
    \/ new_value req = sampling_rate sc ->
    iichid_sysctl_sampling_rate_handler hz req sc = (handle_int_err req, sc, []).
Proof.
  intros hz req sc H. unfold_m. cbn.
  replace (negb (handle_int_err req =? 0) || negb (newptr req)
           || (new_value req =? sampling_rate sc)) with true; [reflexivity |].
  symmetry. destruct H as [H | [H | H]].
  - apply Z.eqb_neq in H. now rewrite H.
  - rewrite H. cbn. now rewrite orb_true_r.
  - apply Z.eqb_eq in H. rewrite H. now rewrite orb_true_r.
Qed.

Lemma sysctl_without_update_changes_nothing_witness :
  (newptr {| handle_int_err := 0; newptr := false; new_value := 60;
             sysctl_intr := (0, None) |} = false)
  /\ iichid_sysctl_sampling_rate_handler 1000
       {| handle_int_err := 0; newptr := false; new_value := 60;
          sysctl_intr := (0, None) |} attached_example
     = (0, attached_example, []).
Proof.
  split; [reflexivity |].
  exact (sysctl_without_update_changes_nothing 1000
           {| handle_int_err := 0; newptr := false; new_value := 60;
              sysctl_intr := (0, None) |} attached_example
           (or_intror (or_introl eq_refl))).
Defined.

(** *** The sysctl handler: switching modes *)

(** X2.  An accepted update from interrupt mode ([sampling_rate < 0]) to a
    rate [value >= 0] returns 0 and leaves the softc in polling mode: the
    interrupt handler is torn down exactly when a cookie was installed, the
    cookie is cleared, the callout is initialised and marked set up, and it
    is armed, with [hz / value] ticks, exactly when [value > 0]. *)
Theorem sysctl_switch_to_polling :
  forall (hz : Z) (req : sysctl_req) (sc : iichid),
    handle_int_err req = 0 -> newptr req = true ->
    sampling_rate sc < 0 -> 0 <= new_value req ->
    let r := iichid_sysctl_sampling_rate_handler hz req sc in
    result r = 0
    /\ state r
       = set_callout_setup true
           (set_irq_cookie None (set_sampling_rate (new_value req) sc))
    /\ filter (fun k => match k with Bus_teardown_intr _ _ => true | _ => false end)
         (trace r)
       = match irq_cookie sc with
         | Some c =>
           [Bus_teardown_intr (match irq_res sc with Some x => x | None => 0 end) c]
         | None => []
         end
    /\ In Callout_init_mtx (trace r)
    /\ filter (fun k => match k with Callout_reset _ => true | _ => false end)
         (trace r)
       = if 0 <? new_value req
         then [Callout_reset (int_div hz (new_value req))] else [].
Proof.
  intros hz req sc Herr Hptr Hold Hval r. subst r.
  destruct sc, req. cbn in *. subst.
  run_m; repeat split; auto 10; try (exfalso; lia); try discriminate.
Qed.

Lemma sysctl_switch_to_polling_witness :
  (sampling_rate attached_example < 0 /\ 0 <= 50)
  /\ state (iichid_sysctl_sampling_rate_handler 1000
              {| handle_int_err := 0; newptr := true; new_value := 50;
                 sysctl_intr := (0, None) |} attached_example)
     = set_callout_setup true
         (set_irq_cookie None (set_sampling_rate 50 attached_example)).
Proof.
  assert (H1 : sampling_rate attached_example < 0) by reflexivity.
  assert (H2 : 0 <= 50) by (vm_compute; discriminate).
  split; [auto |].
  exact (proj1 (proj2 (sysctl_switch_to_polling 1000
                         {| handle_int_err := 0; newptr := true; new_value := 50;
                            sysctl_intr := (0, None) |} attached_example
                         eq_refl eq_refl H1 H2))).
Defined.

(** X3.  An accepted update from polling to interrupt mode returns 0 even
    when [bus_setup_intr] fails: the failure is only logged.  The softc is
    then left with a negative sampling rate and the callout torn down, so
    that the event task that follows re-arms nothing. *)
Theorem sysctl_switch_to_interrupt_ignores_setup_failure :
  forall (hz : Z) (req : sysctl_req) (sc : iichid) (res : Z)
         (xfer : Z * list byte),
    handle_int_err req = 0 -> newptr req = true ->
    0 <= sampling_rate sc -> new_value req < 0 ->
    irq_res sc = Some res ->
    fst (sysctl_intr req) <> 0 ->
    let r := iichid_sysctl_sampling_rate_handler hz req sc in
    result r = 0
    /\ sampling_rate (state r) = new_value req
    /\ callout_setup (state r) = false
    /\ In Callout_stop (trace r)
    /\ In (Bus_setup_intr res) (trace r)
    /\ In (Device_printf "Could not setup interrupt handler" []) (trace r)
    /\ rearm hz (state r) = []
    /\ filter (fun k => match k with Callout_reset _ => true | _ => false end)
         (trace (iichid_event_task hz xfer (state r))) = [].
Proof.
  intros hz req sc res xfer Herr Hptr Hold Hval Hres Hfail r.
  assert (Hmain : result r = 0 /\ sampling_rate (state r) = new_value req
                  /\ callout_setup (state r) = false
                  /\ In Callout_stop (trace r)
                  /\ In (Bus_setup_intr res) (trace r)
                  /\ In (Device_printf "Could not setup interrupt handler" []) (trace r)).
  { subst r. destruct sc, req. cbn in *. subst.
    run_m; repeat split; auto 10; try (exfalso; lia); try discriminate;
      try contradiction. }
  destruct Hmain as [H1 [H2 [H3 [H4 [H5 H6]]]]].
  assert (Hrearm : rearm hz (state r) = []).
  { unfold rearm. now rewrite H3. }
  repeat split; auto.
  destruct xfer as [err buf]. rewrite event_task_trace, filter_app, Hrearm.
  destruct (err =? 0); [destruct (2 <? report_length buf) |]; reflexivity.
Qed.

Lemma sysctl_switch_to_interrupt_ignores_setup_failure_witness :
  (0 <= sampling_rate
          (state (iichid_set_intr 1000 60
                    {| tq_created := Some 1; irq_allocated := Some 2;
                       attach_intr := (6, None) |} 7 8 (softc_zero 12)))
   /\ -1 < 0)
  /\ result (iichid_sysctl_sampling_rate_handler 1000
               {| handle_int_err := 0; newptr := true; new_value := -1;
                  sysctl_intr := (6, None) |}
               (state (iichid_set_intr 1000 60
                         {| tq_created := Some 1; irq_allocated := Some 2;
                            attach_intr := (6, None) |} 7 8 (softc_zero 12))))
     = 0.
Proof.
  assert (H1 : 0 <= sampling_rate
                      (state (iichid_set_intr 1000 60
                                {| tq_created := Some 1; irq_allocated := Some 2;
                                   attach_intr := (6, None) |} 7 8 (softc_zero 12))))
    by (vm_compute; discriminate).
  assert (H2 : -1 < 0) by reflexivity.
  assert (H3 : 6 <> 0) by discriminate.
  split; [auto |].
  exact (proj1 (sysctl_switch_to_interrupt_ignores_setup_failure 1000
                  {| handle_int_err := 0; newptr := true; new_value := -1;
                     sysctl_intr := (6, None) |}
                  (state (iichid_set_intr 1000 60
                            {| tq_created := Some 1; irq_allocated := Some 2;
                               attach_intr := (6, None) |} 7 8 (softc_zero 12)))
                  2 (0, []) eq_refl eq_refl H1 H2 eq_refl H3)).
Defined.

(** *** What [iichid_set_intr] leaves behind *)

Lemma set_intr_failure hz dflt env intr ctx sc :
  tq_created env = None ->
  iichid_set_intr hz dflt env intr ctx sc
  = (ENXIO, set_taskqueue None (set_intr_handler intr ctx sc),
     [Task_init; Taskqueue_create]).
Proof.
  intros Htq. destruct env. cbn in Htq. subst. reflexivity.
Qed.

Lemma set_intr_success_state hz dflt env intr ctx sc tq :
  tq_created env = Some tq -> 0 <= dflt ->
  let r := iichid_set_intr hz dflt env intr ctx sc in
  let rate :=
    match irq_allocated env with
    | Some _ => if fst (attach_intr env) =? 0 then -1 else dflt
    | None => dflt
    end in
  let size := if input_size sc =? 0 then le16toh (wMaxInputLength sc) else input_size sc in
  result r = 0
  /\ state r
     = {| wMaxInputLength := wMaxInputLength sc;
          input_size := size;
          input_buf := Some (repeat x00 (Z.to_nat size));
          intr_handler := intr; intr_sc := ctx;
          taskqueue := Some tq;
          irq_res := irq_allocated env; irq_rid := 0;
          irq_cookie := match irq_allocated env with
                        | Some _ => snd (attach_intr env)
                        | None => irq_cookie sc
                        end;
          sampling_rate := rate;
          callout_setup := if 0 <=? rate then true else callout_setup sc |}.
Proof.
  intros Htq Hd. destruct sc, env as [tq0 irq0 [e c]]. cbn in Htq. subst.
  unfold_m.
  repeat (cbn; try case_if); cbn; boolp; split; try reflexivity;
    try (exfalso; lia); try discriminate.
Qed.

(** X4.  Once [iichid_set_intr] has succeeded on a softc whose callout was
    not set up, the callout is marked set up exactly when the device is in
    polling mode ([sampling_rate >= 0]), and every sysctl update and every
    event task keeps it so. *)
Theorem callout_setup_tracks_polling_mode :
  forall (hz dflt : Z),
    0 <= dflt ->
    (forall env intr ctx sc,
        callout_setup sc = false ->
        let r := iichid_set_intr hz dflt env intr ctx sc in
        result r = 0 ->
        callout_setup (state r) = (0 <=? sampling_rate (state r)))
    /\ (forall req sc,
          callout_setup sc = (0 <=? sampling_rate sc) ->
          let r := iichid_sysctl_sampling_rate_handler hz req sc in
          callout_setup (state r) = (0 <=? sampling_rate (state r)))
    /\ (forall xfer sc,
          callout_setup sc = (0 <=? sampling_rate sc) ->
          let r := iichid_event_task hz xfer sc in
          callout_setup (state r) = (0 <=? sampling_rate (state r))).
Proof.
  intros hz dflt Hd. split; [| split].
  - intros env intr ctx sc Hfresh r Hres. subst r.
    destruct (tq_created env) as [tq |] eqn:Htq.
    + destruct (set_intr_success_state hz dflt env intr ctx sc tq Htq Hd) as [_ Hst].
      cbv zeta in Hst. rewrite Hst. cbn [callout_setup sampling_rate].
      rewrite Hfresh. now destruct (0 <=? _).
    + rewrite set_intr_failure in Hres by assumption.
      unfold result, ENXIO in Hres. cbn in Hres. discriminate Hres.
  - intros req sc Hinv r. subst r. destruct sc, req. cbn in Hinv. subst.
    run_m; try reflexivity;
      repeat match goal with
             | |- context [?a <=? ?b] => destruct (Z.leb_spec a b)
             end;
      try reflexivity; exfalso; lia.
  - intros xfer sc Hinv r. subst r. rewrite event_task_state.
    destruct (fst xfer =? 0); exact Hinv.
Qed.

Lemma callout_setup_tracks_polling_mode_witness :
  0 <= 60
  /\ callout_setup (state (iichid_set_intr 1000 60 env_no_irq 7 8 (softc_zero 12)))
     = (0 <=? sampling_rate
                (state (iichid_set_intr 1000 60 env_no_irq 7 8 (softc_zero 12)))).
Proof.
  assert (H60 : 0 <= 60) by (vm_compute; discriminate).
  split; [exact H60 |].
  exact (proj1 (callout_setup_tracks_polling_mode 1000 60 H60)
           env_no_irq 7 8 (softc_zero 12) eq_refl eq_refl).
Defined.

(** X5.  The polling callout is only ever armed with a positive sampling
    rate, so [hz / sampling_rate] never divides by zero: whenever
    [iichid_set_intr], the sysctl handler or the event task calls
    [callout_reset], the count of ticks is [hz] divided by the sampling
    rate the softc is left with, that rate is positive and the callout is
    set up.  [iichid_get_report_desc] and [iichid_destroy] never call
    [callout_reset]. *)
Theorem callout_armed_only_with_positive_rate :
  forall (hz dflt : Z) (sc : iichid),
    (forall (o : op) (ticks : Z),
        let tr :=
          match o with
          | Op_get_report_desc desc_len fetch report_size =>
            trace (iichid_get_report_desc desc_len fetch report_size sc)
          | Op_set_intr env intr ctx => trace (iichid_set_intr hz dflt env intr ctx sc)
          | Op_sysctl req => trace (iichid_sysctl_sampling_rate_handler hz req sc)
          | Op_event_task xfer => trace (iichid_event_task hz xfer sc)
          | Op_destroy => trace (iichid_destroy sc)
          end in
        In (Callout_reset ticks) tr ->
        0 < sampling_rate (run_op hz dflt o sc)
        /\ ticks = int_div hz (sampling_rate (run_op hz dflt o sc))
        /\ callout_setup (run_op hz dflt o sc) = true)
    /\ (forall (desc_len fetch report_size ticks : Z),
          ~ In (Callout_reset ticks)
              (trace (iichid_get_report_desc desc_len fetch report_size sc)))
    /\ (forall ticks : Z, ~ In (Callout_reset ticks) (trace (iichid_destroy sc))).
Proof.
  intros hz dflt sc.
  assert (Hdesc : forall desc_len fetch report_size ticks,
             ~ In (Callout_reset ticks)
                 (trace (iichid_get_report_desc desc_len fetch report_size sc))).
  { intros desc_len fetch report_size ticks. run_m; intros Hin;
      repeat (destruct Hin as [Hin | Hin]; try discriminate Hin); contradiction. }
  assert (Hdestroy : forall ticks,
             ~ In (Callout_reset ticks) (trace (iichid_destroy sc))).
  { intros ticks. run_m; intros Hin;
      repeat (destruct Hin as [Hin | Hin]; try discriminate Hin); contradiction. }
  split; [| split; [exact Hdesc | exact Hdestroy]].
  intros o ticks tr Hin. subst tr.
  destruct o as [desc_len fetch report_size | env intr ctx | req | [err buf] |];
    cbn [run_op].
  - exfalso. exact (Hdesc _ _ _ _ Hin).
  - revert Hin. destruct sc, env as [tq0 irq0 [e c]].
    run_m; intros Hin;
      repeat (destruct Hin as [Hin | Hin]; try discriminate Hin);
      try contradiction; injection Hin as <-; repeat split; try reflexivity; lia.
  - revert Hin. destruct sc, req.
    run_m; intros Hin;
      repeat (destruct Hin as [Hin | Hin]; try discriminate Hin);
      try contradiction; injection Hin as <-; repeat split; try reflexivity; lia.
  - revert Hin. rewrite event_task_trace, event_task_state. cbn [fst snd].
    intros Hin. apply in_app_or in Hin. destruct Hin as [Hin | Hin].
    + exfalso. destruct (err =? 0); [destruct (2 <? report_length buf) |];
        repeat (destruct Hin as [Hin | Hin]; try discriminate Hin); contradiction.
    + unfold rearm in Hin.
      destruct (callout_setup sc) eqn:Hs; [| contradiction].
      destruct (0 <? sampling_rate sc) eqn:Hr; cbn in Hin; [| contradiction].
      destruct Hin as [Hin | []]. injection Hin as <-.
      apply Z.ltb_lt in Hr.
      destruct (err =? 0); cbn; auto.
  - exfalso. exact (Hdestroy _ Hin).
Qed.

Lemma callout_armed_only_with_positive_rate_witness :
  In (Callout_reset 16)
     (trace (iichid_set_intr 1000 60 env_no_irq 7 8 (softc_zero 12)))
  /\ 0 < sampling_rate (run_op 1000 60 (Op_set_intr env_no_irq 7 8) (softc_zero 12)).
Proof.
  assert (Hin : In (Callout_reset 16)
                   (trace (iichid_set_intr 1000 60 env_no_irq 7 8 (softc_zero 12))))
    by (vm_compute; auto 20).
  split; [exact Hin |].
  exact (proj1 (proj1 (callout_armed_only_with_positive_rate 1000 60 (softc_zero 12))
                  (Op_set_intr env_no_irq 7 8) 16 Hin)).
Defined.

(** X6.  After a successful [iichid_set_intr], [iichid_destroy] issues
    exactly these calls, in this order: the input buffer is freed;
    [callout_stop] is called, in every case, also in interrupt mode where
    [iichid_set_intr] initialised no callout; the interrupt handler is torn
    down if the softc then holds a cookie, which is the one
    [bus_setup_intr] installed when an IRQ resource was allocated and
    otherwise a cookie the softc held before, if any; the IRQ resource is
    released if one was allocated; the taskqueue is blocked, drained and
    freed.  On a softc that held no cookie before, everything
    [iichid_set_intr] acquired is thus released once, with in interrupt
    mode the [callout_stop] of a callout that was never initialised on
    top. *)
Theorem destroy_after_set_intr_trace :
  forall (hz dflt : Z) (env : set_intr_env) (intr ctx : Z) (sc : iichid) (tq : Z),
    tq_created env = Some tq -> 0 <= dflt ->
    let attached := state (iichid_set_intr hz dflt env intr ctx sc) in
    trace (iichid_destroy attached)
    = [Free_input_buf; Callout_stop; Device_printf "tore callout down" []]
      ++ match irq_allocated env with
         | Some res =>
           match snd (attach_intr env) with
           | Some cookie => [Bus_teardown_intr res cookie]
           | None => []
           end
         | None =>
           match irq_cookie sc with
           | Some stale => [Bus_teardown_intr 0 stale]
           | None => []
           end
         end
      ++ match irq_allocated env with
         | Some res => [Bus_release_resource 0 res]
         | None => []
         end
      ++ [Taskqueue_block tq; Taskqueue_drain tq; Taskqueue_free tq].
Proof.
  intros hz dflt env intr ctx sc tq Htq Hd attached. subst attached.
  destruct (set_intr_success_state hz dflt env intr ctx sc tq Htq Hd) as [_ Hst].
  cbv zeta in Hst. rewrite Hst.
  destruct (irq_allocated env) as [res |];
    [destruct (snd (attach_intr env)) | destruct (irq_cookie sc)];
    reflexivity.
Qed.

Lemma destroy_after_set_intr_trace_witness :
  (tq_created env_irq = Some 1 /\ 0 <= 60)
  /\ trace (iichid_destroy (state (iichid_set_intr 1000 60 env_irq 7 8 (softc_zero 12))))
     = [Free_input_buf; Callout_stop; Device_printf "tore callout down" [];
        Bus_teardown_intr 2 3; Bus_release_resource 0 2;
        Taskqueue_block 1; Taskqueue_drain 1; Taskqueue_free 1].
Proof.
  assert (H60 : 0 <= 60) by (vm_compute; discriminate).
  split; [auto |].
  exact (destroy_after_set_intr_trace 1000 60 env_irq 7 8 (softc_zero 12) 1
           eq_refl H60).
Defined.

(** X7.  When the taskqueue cannot be created [iichid_set_intr] returns
    [ENXIO] having acquired nothing: no buffer, no IRQ resource, no
    interrupt handler, no callout, and no change to the sampling rate; only
    the handler and its argument are recorded.  On a softc that held no
    resource before, [iichid_destroy] then releases nothing. *)
Theorem set_intr_failure_acquires_nothing :
  forall (hz dflt : Z) (env : set_intr_env) (intr ctx : Z) (sc : iichid),
    tq_created env = None ->
    let r := iichid_set_intr hz dflt env intr ctx sc in
    result r = ENXIO
    /\ state r = set_taskqueue None (set_intr_handler intr ctx sc)
    /\ trace r = [Task_init; Taskqueue_create]
    /\ (input_buf sc = None -> irq_res sc = None -> irq_cookie sc = None ->
        trace (iichid_destroy (state r))
        = [Callout_stop; Device_printf "tore callout down" []]).
Proof.
  intros hz dflt env intr ctx sc Htq r. subst r.
  rewrite set_intr_failure by assumption. repeat split.
  intros Hbuf Hres Hcookie. destruct sc. cbn in Hbuf, Hres, Hcookie. subst.
  reflexivity.
Qed.

Lemma set_intr_failure_acquires_nothing_witness :
  tq_created {| tq_created := None; irq_allocated := Some 2; attach_intr := (0, Some 3) |}
  = None
  /\ result (iichid_set_intr 1000 60
               {| tq_created := None; irq_allocated := Some 2;
                  attach_intr := (0, Some 3) |} 7 8 (softc_zero 12))
     = ENXIO.
Proof.
  split; [reflexivity |].
  exact (proj1 (set_intr_failure_acquires_nothing 1000 60
                  {| tq_created := None; irq_allocated := Some 2;
                     attach_intr := (0, Some 3) |} 7 8 (softc_zero 12) eq_refl)).
Defined.

(** X8.  A successful [iichid_set_intr] ends in interrupt mode
    ([sampling_rate = -1], callout untouched, nothing armed) exactly when
    the IRQ resource was allocated and [bus_setup_intr] succeeded; in every
    other case it falls back to polling at the default rate with the
    callout set up.  Either way the input buffer is zero filled and has
    [input_size] bytes, where an [input_size] of 0 (no report descriptor
    fetched yet) is first replaced by [wMaxInputLength]. *)
Theorem set_intr_mode_and_buffer :
  forall (hz dflt : Z) (env : set_intr_env) (intr ctx : Z) (sc : iichid) (tq : Z),
    tq_created env = Some tq -> 0 <= dflt ->
    let r := iichid_set_intr hz dflt env intr ctx sc in
    let interrupt_mode :=
      match irq_allocated env with
      | Some _ => fst (attach_intr env) =? 0
      | None => false
      end in
    result r = 0
    /\ sampling_rate (state r) = (if interrupt_mode then -1 else dflt)
    /\ callout_setup (state r) = (if interrupt_mode then callout_setup sc else true)
    /\ (interrupt_mode = true ->
        filter (fun k => match k with
                         | Callout_reset _ | Callout_init_mtx => true
                         | _ => false
                         end) (trace r) = [])
    /\ input_size (state r)
       = (if input_size sc =? 0 then wMaxInputLength sc else input_size sc)
    /\ input_buf (state r) = Some (repeat x00 (Z.to_nat (input_size (state r))))
    /\ intr_handler (state r) = intr /\ intr_sc (state r) = ctx.
Proof.
  intros hz dflt env intr ctx sc tq Htq Hd r interrupt_mode.
  destruct (set_intr_success_state hz dflt env intr ctx sc tq Htq Hd) as [Hres Hst].
  cbv zeta in Hst. fold r in Hres, Hst.
  split; [exact Hres |]. rewrite Hst. cbn - [Z.to_nat repeat]. subst interrupt_mode.
  assert (Hle : (0 <=? dflt) = true) by (apply Z.leb_le; exact Hd).
  repeat split.
  - destruct (irq_allocated env); [destruct (fst (attach_intr env) =? 0) |]; reflexivity.
  - destruct (irq_allocated env); [destruct (fst (attach_intr env) =? 0) |];
      cbn; rewrite ?Hle; reflexivity.
  - intros Hmode. subst r. clear Hst Hres.
    destruct sc, env as [tq0 irq0 [e c]]. cbn in Htq, Hmode. subst.
    destruct irq0; [| discriminate]. cbn in Hmode.
    run_m; try reflexivity; try (exfalso; lia); try discriminate; try congruence.
Qed.

Lemma set_intr_mode_and_buffer_witness :
  (tq_created env_irq = Some 1 /\ 0 <= 60)
  /\ sampling_rate (state (iichid_set_intr 1000 60 env_irq 7 8 (softc_zero 12))) = -1.
Proof.
  assert (H60 : 0 <= 60) by (vm_compute; discriminate).
  split; [auto |].
  exact (proj1 (proj2 (set_intr_mode_and_buffer 1000 60 env_irq 7 8 (softc_zero 12) 1
                         eq_refl H60))).
Defined.

(** X9.  When the report descriptor cannot be fetched
    [iichid_get_report_desc] frees the buffer it allocated, leaves the softc
    as it was and returns the error of the transfer unchanged.  When it can,
    the buffer is not freed (it is handed to the caller), 0 is returned, and
    a mismatch with [wMaxInputLength] is logged but is no error. *)
Theorem get_report_desc_outcomes :
  forall (desc_len fetch report_size : Z) (sc : iichid),
    let r := iichid_get_report_desc desc_len fetch report_size sc in
    (fetch <> 0 ->
     result r = fetch /\ state r = sc
     /\ filter (fun k => match k with Malloc _ | Free_tmpbuf => true | _ => false end)
          (trace r) = [Malloc desc_len; Free_tmpbuf])
    /\ (fetch = 0 ->
        result r = 0
        /\ state r = set_input_size (int_add report_size 2) sc
        /\ filter (fun k => match k with Malloc _ | Free_tmpbuf => true | _ => false end)
             (trace r) = [Malloc desc_len]
        /\ (In (Device_printf
                  "determined (len=%d) and described (len=%d) input report lengths mismatch"
                  [int_add report_size 2; wMaxInputLength sc]) (trace r)
            <-> int_add report_size 2 <> wMaxInputLength sc)).
Proof.
  intros desc_len fetch report_size sc r. subst r. split.
  - intros Hf. apply Z.eqb_neq in Hf. unfold_m. cbn. rewrite Hf. cbn. auto.
  - intros ->. destruct sc. unfold_m. cbn. unfold le16toh.
    destruct (int_add report_size 2 =? wMaxInputLength0) eqn:Heq; cbn;
      repeat split; auto.
    + intros [H | [H | [H | []]]]; discriminate H.
    + apply Z.eqb_eq in Heq. intros Hne. contradiction.
    + apply Z.eqb_neq in Heq. intros _. exact Heq.
Qed.

Lemma get_report_desc_outcomes_witness :
  5 <> 0
  /\ result (iichid_get_report_desc 64 5 8 (softc_zero 12)) = 5.
Proof.
  assert (H5 : 5 <> 0) by discriminate.
  split; [exact H5 |].
  exact (proj1 (proj1 (get_report_desc_outcomes 64 5 8 (softc_zero 12)) H5)).
Defined.

End TransportProperties.

(** * Properties of the usage maps *)

Section MapProperties.
Import CInt Errno Hid Evdev Usage Hmap HmapCore.

(** *** Row constructors *)

(** C4.  [HMAP_KEY] makes an event row of type [EV_KEY]; [HMAP_REL] one of
    type [EV_REL] that takes relative items only; [HMAP_ABS] one of type
    [EV_ABS] that takes absolute items only; [HMAP_ANY_CB] a callback row,
    [has_cb] set and [cb] the function given; [HMAP_COMPL_CB] a completion
    row, [has_cb] set and no usage.  Each keeps the name, usage and code it
    is given. *)
Theorem row_constructors_presets :
  forall (n : c_string) (u c : Z) (fn : hmap_cb_t) (relative : bool),
    (payload (HMAP_KEY n u c) = Event EV_KEY c
     /\ has_cb (HMAP_KEY n u c) = false
     /\ name (HMAP_KEY n u c) = n /\ usage (HMAP_KEY n u c) = u
     /\ relabs_accepts (relabs (HMAP_KEY n u c)) relative = true)
    /\ (payload (HMAP_REL n u c) = Event EV_REL c
        /\ relabs (HMAP_REL n u c) = HMAP_RELATIVE
        /\ has_cb (HMAP_REL n u c) = false
        /\ name (HMAP_REL n u c) = n /\ usage (HMAP_REL n u c) = u
        /\ relabs_accepts (relabs (HMAP_REL n u c)) relative = relative)
    /\ (payload (HMAP_ABS n u c) = Event EV_ABS c
        /\ relabs (HMAP_ABS n u c) = HMAP_ABSOLUTE
        /\ has_cb (HMAP_ABS n u c) = false
        /\ name (HMAP_ABS n u c) = n /\ usage (HMAP_ABS n u c) = u
        /\ relabs_accepts (relabs (HMAP_ABS n u c)) relative = negb relative)
    /\ (payload (HMAP_ANY_CB n u fn) = Callback fn
        /\ has_cb (HMAP_ANY_CB n u fn) = true
        /\ name (HMAP_ANY_CB n u fn) = n /\ usage (HMAP_ANY_CB n u fn) = u
        /\ is_completion (HMAP_ANY_CB n u fn) = (u =? 0))
    /\ (payload (HMAP_COMPL_CB fn) = Callback fn
        /\ has_cb (HMAP_COMPL_CB fn) = true
        /\ has_usage (HMAP_COMPL_CB fn) = false
        /\ is_completion (HMAP_COMPL_CB fn) = true
        /\ completion_rows [HMAP_COMPL_CB fn] 0 = [(0%nat, fn)]).
Proof.
  intros n u c fn relative. repeat split.
  unfold is_completion, has_usage. cbn. now rewrite negb_involutive.
Qed.

(** *** Counting capabilities *)

Lemma positions_succ first n :
  positions first (S n) = first :: positions (first + 1) n.
Proof.
  unfold positions. cbn [seq List.map]. rewrite <- seq_shift, map_map.
  f_equal; [lia |]. apply map_ext. intros k. lia.
Qed.

Lemma bit_count_loop_spec b n : forall i value,
  bit_count_loop b i n value =
  value + Z.of_nat (List.length (filter (bit_test b) (positions i n))).
Proof.
  induction n as [| n IH]; intros i value.
  - cbn. lia.
  - cbn [bit_count_loop]. rewrite IH, positions_succ. cbn [filter].
    destruct (bit_test b i); cbn [List.length]; lia.
Qed.

Lemma hmap_count_caps_spec caps first last :
  first <= last -> last < INT_MAX ->
  INT_MIN <= last ->
  hmap_count_caps caps first last = Z.of_nat (List.length (set_bits caps first last)).
Proof.
  intros Hfl Hmax Hmin. unfold hmap_count_caps, bit_count, set_bits, int_add.
  unfold int_wrap, INT_MAX, INT_MIN in *.
  rewrite Z.mod_small by lia.
  replace (last + 1 + 2147483648 - 2147483648) with (last + 1) by lia.
  destruct (last + 1 <=? first) eqn:Hle; [apply Z.leb_le in Hle; lia |].
  rewrite bit_count_loop_spec, Z.add_0_l.
  replace (last + 1 - first) with (last - first + 1) by lia. reflexivity.
Qed.

(** Testing a bit through its mask reads the bit. *)
Lemma mask_testbit w k :
  0 <= k -> negb (Z.land w (Z.shiftl 1 k) =? 0) = Z.testbit w k.
Proof.
  intros Hk. rewrite Z.shiftl_1_l.
  destruct (Z.testbit w k) eqn:Hb.
  - apply negb_true_iff, Z.eqb_neq. intros H0.
    assert (Hbit : Z.testbit (Z.land w (2 ^ k)) k = true)
      by (rewrite Z.land_spec, Hb, Z.pow2_bits_true by lia; reflexivity).
    rewrite H0, Z.bits_0 in Hbit. discriminate.
  - apply negb_false_iff, Z.eqb_eq. apply Z.bits_inj'. intros n Hn.
    rewrite Z.land_spec, Z.bits_0, Z.pow2_bits_eqb by lia.
    destruct (Z.eqb_spec k n) as [-> | Hne]; [now rewrite Hb | apply andb_false_r].
Qed.

Lemma bit_test_testbit b bit :
  0 <= bit ->
  bit_test b bit =
  Z.testbit (nth (Z.to_nat (bit / BITSTR_BITS)) b 0) (bit mod BITSTR_BITS).
Proof.
  intros Hb. unfold bit_test, bit_mask, bit_idx. apply mask_testbit.
  apply Z.mod_pos_bound. reflexivity.
Qed.

Lemma word_update_length b : forall idx f,
  List.length (word_update b idx f) = List.length b.
Proof.
  induction b as [| w rest IH]; intros [| idx] f; cbn; auto.
Qed.

Lemma word_update_nth b : forall idx f i,
  (idx < List.length b)%nat ->
  nth i (word_update b idx f) 0 =
  if Nat.eqb i idx then f (nth i b 0) else nth i b 0.
Proof.
  induction b as [| w rest IH]; intros idx f i Hlen; cbn in Hlen; [lia |].
  destruct idx as [| idx], i as [| i]; cbn; try reflexivity.
  apply IH. lia.
Qed.

Lemma bit_test_bit_set b i j :
  0 <= i -> 0 <= j -> (Z.to_nat (i / BITSTR_BITS) < List.length b)%nat ->
  bit_test (bit_set b i) j = (i =? j) || bit_test b j.
Proof.
  intros Hi Hj Hlen. rewrite !bit_test_testbit by assumption.
  unfold bit_set, bit_idx, bit_mask. rewrite word_update_nth by assumption.
  assert (H64 : 0 < BITSTR_BITS) by reflexivity.
  pose proof (Z.div_mod i BITSTR_BITS) as Hdi.
  pose proof (Z.div_mod j BITSTR_BITS) as Hdj.
  pose proof (Z.mod_pos_bound i BITSTR_BITS H64) as Hmi.
  pose proof (Z.mod_pos_bound j BITSTR_BITS H64) as Hmj.
  pose proof (Z.div_pos i BITSTR_BITS Hi H64) as Hqi.
  pose proof (Z.div_pos j BITSTR_BITS Hj H64) as Hqj.
  destruct (Nat.eqb_spec (Z.to_nat (j / BITSTR_BITS)) (Z.to_nat (i / BITSTR_BITS)))
    as [Heq | Hne].
  - rewrite Z.lor_spec, Z.shiftl_1_l, Z.pow2_bits_eqb by lia.
    assert (Hq : j / BITSTR_BITS = i / BITSTR_BITS) by lia.
    rewrite orb_comm. f_equal.
    destruct (Z.eqb_spec (i mod BITSTR_BITS) (j mod BITSTR_BITS)),
             (Z.eqb_spec i j); try reflexivity; exfalso; lia.
  - destruct (Z.eqb_spec i j) as [-> | _]; [congruence | reflexivity].
Qed.

Lemma bit_test_bit_decl n j : bit_test (bit_decl n) j = false.
Proof.
  unfold bit_test, bit_decl.
  replace (nth _ (repeat 0 _) 0) with 0; [reflexivity |].
  symmetry. generalize (Z.to_nat (bit_idx j)). generalize (Z.to_nat (bitstr_size n)).
  intros m. induction m as [| m IH]; intros [| k]; cbn; auto.
Qed.

Lemma bit_set_length b i : List.length (bit_set b i) = List.length b.
Proof. apply word_update_length. Qed.

Lemma caps_fold_test (bound : nat -> bool) (l : list nat) : forall b j,
  (forall i, In i l -> (Z.to_nat (Z.of_nat i / BITSTR_BITS) < List.length b)%nat) ->
  bit_test
    (fold_left (fun caps i => if bound i then bit_set caps (Z.of_nat i) else caps) l b)
    (Z.of_nat j)
  = existsb (fun i => Nat.eqb i j && bound i) l || bit_test b (Z.of_nat j).
Proof.
  induction l as [| i l IH]; intros b j Hin; [reflexivity |].
  cbn [fold_left existsb]. rewrite IH.
  - destruct (bound i) eqn:Hb.
    + rewrite bit_test_bit_set by (try lia; apply Hin; now left).
      destruct (Nat.eqb_spec i j) as [-> | Hne].
      * rewrite Z.eqb_refl. cbn. now rewrite !orb_true_r.
      * replace (Z.of_nat i =? Z.of_nat j) with false
          by (symmetry; apply Z.eqb_neq; lia).
        reflexivity.
    + now rewrite andb_false_r.
  - intros k Hk. destruct (bound i); rewrite ?bit_set_length; apply Hin; now right.
Qed.

Lemma existsb_seq_eq (bound : nat -> bool) j : forall n s,
  existsb (fun i => Nat.eqb i j && bound i) (seq s n) =
  (Nat.leb s j && Nat.ltb j (s + n) && bound j).
Proof.
  induction n as [| n IH]; intros s.
  - cbn [seq existsb]. symmetry.
    destruct (bound j); [rewrite andb_true_r | apply andb_false_r].
    apply andb_false_iff.
    destruct (Nat.leb_spec s j); [right; apply Nat.ltb_ge; lia | now left].
  - cbn [seq existsb]. rewrite IH.
    destruct (Nat.eqb_spec s j) as [-> | Hne].
    + replace (Nat.leb j j) with true by (symmetry; apply Nat.leb_le; lia).
      replace (Nat.ltb j (j + S n)) with true by (symmetry; apply Nat.ltb_lt; lia).
      destruct (bound j); [reflexivity | cbn; apply andb_false_r].
    + replace (Nat.ltb j (S s + n)) with (Nat.ltb j (s + S n))
        by (f_equal; lia).
      replace (Nat.leb (S s) j) with (Nat.leb s j); [reflexivity |].
      destruct (Nat.leb_spec s j), (Nat.leb_spec (S s) j); try reflexivity; lia.
Qed.

(** The capabilities bit string has bit [j] set exactly when row [j]
    matched. *)
Lemma hmap_caps_test rows items j :
  (j < List.length rows)%nat ->
  bit_test (hmap_caps rows items) (Z.of_nat j) = row_bound rows items j.
Proof.
  intros Hj. unfold hmap_caps. rewrite caps_fold_test.
  - rewrite bit_test_bit_decl, orb_false_r, existsb_seq_eq.
    replace (Nat.ltb j (0 + List.length rows)) with true
      by (symmetry; apply Nat.ltb_lt; lia).
    reflexivity.
  - intros i Hi. apply in_seq in Hi. unfold bit_decl. rewrite repeat_length.
    unfold bitstr_size.
    assert (H64 : 0 < BITSTR_BITS) by reflexivity.
    set (n := Z.of_nat (List.length rows)) in *.
    assert (Hlt : Z.of_nat i / BITSTR_BITS < (n + BITSTR_BITS - 1) / BITSTR_BITS).
    { apply Z.div_lt_upper_bound; [assumption |].
      pose proof (Z.div_mod (n + BITSTR_BITS - 1) BITSTR_BITS) as Hd.
      pose proof (Z.mod_pos_bound (n + BITSTR_BITS - 1) BITSTR_BITS H64) as Hm.
      unfold BITSTR_BITS in *. lia. }
    pose proof (Z.div_pos (Z.of_nat i) BITSTR_BITS) as Hq.
    lia.
Qed.

Lemma filter_positions_nat (f : Z -> bool) (g : nat -> bool) n :
  (forall k, (k < n)%nat -> f (Z.of_nat k) = g k) ->
  List.length (filter f (positions 0 n)) = List.length (filter g (seq 0 n)).
Proof.
  unfold positions. intros H.
  assert (Hgen : forall s, (forall k, In k (seq s n) -> f (0 + Z.of_nat k) = g k) ->
            List.length (filter f (List.map (fun k => 0 + Z.of_nat k) (seq s n))) =
            List.length (filter g (seq s n))).
  { generalize n. clear. intros n. induction n as [| n IH]; intros s Hs; [reflexivity |].
    cbn [seq List.map filter]. rewrite (Hs s) by now left.
    destruct (g s); cbn [List.length]; rewrite IH; auto;
      intros k Hk; apply Hs; now right. }
  apply Hgen. intros k Hk. apply in_seq in Hk. cbn. apply H. lia.
Qed.

(** C8.  For indices [0 <= first <= last] inside a map of [nitems] rows,
    [hmap_count_caps caps first last] is the number of bits set at the
    positions [first] through [last], inclusive.  On the capabilities a
    resolved map records, and [first = 0], this is the number of bound rows
    among the first [last + 1] rows. *)
Theorem hmap_count_caps_counts_inclusive :
  forall (caps : bitstr) (nitems first last : Z),
    0 <= first -> first <= last -> last < nitems -> nitems <= INT_MAX ->
    hmap_count_caps caps first last
    = Z.of_nat (List.length (set_bits caps first last))
    /\ (forall rows items,
          Z.of_nat (List.length rows) = nitems ->
          hmap_count_caps (hmap_caps rows items) 0 last
          = Z.of_nat (List.length (bound_among rows items (Z.to_nat (last + 1))))).
Proof.
  intros caps nitems first last H0 Hfl Hlast Hmax. split.
  - apply hmap_count_caps_spec; unfold INT_MIN; lia.
  - intros rows items Hrows.
    rewrite hmap_count_caps_spec by (unfold INT_MIN; lia).
    unfold set_bits, bound_among. rewrite Z.sub_0_r. f_equal.
    apply filter_positions_nat. intros k Hk. apply hmap_caps_test. lia.
Qed.

Lemma hmap_count_caps_counts_inclusive_witness :
  (0 <= 1 /\ 1 <= 6 /\ 6 < 12 /\ 12 <= INT_MAX)
  /\ hmap_count_caps [1735] 1 6 = 3.
Proof.
  assert (H0 : 0 <= 1) by (vm_compute; discriminate).
  assert (H1 : 1 <= 6) by (vm_compute; discriminate).
  assert (H2 : 6 < 12) by reflexivity.
  assert (H3 : 12 <= INT_MAX) by (vm_compute; discriminate).
  split; [auto |].
  exact (proj1 (hmap_count_caps_counts_inclusive [1735] 12 1 6 H0 H1 H2 H3)).
Defined.

(** *** The resolver *)

Lemma find_row_some p rows : forall i j,
  find_row p rows i = Some j ->
  (i <= j)%nat
  /\ exists mj, nth_error rows (j - i) = Some mj /\ p mj = true.
Proof.
  induction rows as [| mi rest IH]; intros i j H; cbn in H; [discriminate |].
  destruct (p mi) eqn:Hp.
  - injection H as <-. split; [lia |]. exists mi. rewrite Nat.sub_diag. auto.
  - apply IH in H. destruct H as [Hle [mj [Hnth Hpj]]].
    split; [lia |]. exists mj. split; [| assumption].
    replace (j - i)%nat with (S (j - S i)) by lia. exact Hnth.
Qed.

Lemma array_lookup_usage rows u j :
  array_lookup rows u = Some j ->
  exists mj, nth_error rows j = Some mj /\ is_key_row mj = true.
Proof.
  unfold array_lookup. intros H. apply find_row_some in H.
  destruct H as [_ [mj [Hnth Hp]]]. rewrite Nat.sub_0_r in Hnth.
  apply andb_true_iff in Hp. exists mj. tauto.
Qed.

Lemma range_rows_lookup rows lo hi j : forall rest i,
  In j (range_rows rows rest lo hi i) -> exists u, array_lookup rows u = Some j.
Proof.
  induction rest as [| mi rest IH]; intros i H; cbn in H; [contradiction |].
  apply in_app_or in H. destruct H as [H | H]; [| now apply IH in H].
  destruct ((lo <=? usage mi) && (usage mi <=? hi)); cbn in H; [| contradiction].
  destruct (array_lookup rows (usage mi)) as [j' |] eqn:Hl; [| contradiction].
  destruct (Nat.eqb_spec i j') as [-> | _]; [| contradiction].
  destruct H as [<- | []]. now exists (usage mi).
Qed.

Lemma is_key_row_has_usage mi : is_key_row mi = true -> has_usage mi = true.
Proof.
  unfold is_key_row. destruct (payload mi); [| discriminate].
  intros H. apply andb_true_iff in H. destruct H as [H _].
  apply andb_true_iff in H. tauto.
Qed.

(** A row paired with an item by the resolver has a usage; an array reaches
    key rows only, a Variable item a row that matches it. *)
Lemma bound_rows_sound rows it j :
  In j (bound_rows rows it) ->
  exists mj,
    nth_error rows j = Some mj /\ has_usage mj = true
    /\ match item_usage it with
       | Variable_usage u => row_matches_variable u (is_relative it) mj = true
       | _ => is_key_row mj = true
       end.
Proof.
  unfold bound_rows. destruct (item_usage it) as [u | usages | lo hi]; intros H.
  - destruct (find_row _ rows 0) as [j' |] eqn:Hf; cbn in H; [| contradiction].
    destruct H as [<- | []]. apply find_row_some in Hf.
    destruct Hf as [_ [mj [Hnth Hp]]]. rewrite Nat.sub_0_r in Hnth.
    exists mj. repeat split; try assumption.
    unfold row_matches_variable in Hp.
    apply andb_true_iff in Hp. destruct Hp as [Hp _].
    apply andb_true_iff in Hp. tauto.
  - apply in_flat_map in H. destruct H as [u [_ H]].
    destruct (array_lookup rows u) as [j' |] eqn:Hl; cbn in H; [| contradiction].
    destruct H as [<- | []]. apply array_lookup_usage in Hl.
    destruct Hl as [mj [Hnth Hk]]. exists mj. auto using is_key_row_has_usage.
  - apply range_rows_lookup in H. destruct H as [u Hl].
    apply array_lookup_usage in Hl.
    destruct Hl as [mj [Hnth Hk]]. exists mj. auto using is_key_row_has_usage.
Qed.

Lemma row_bound_true rows items i :
  row_bound rows items i = true <-> exists it, In it items /\ In i (bound_rows rows it).
Proof.
  unfold row_bound. rewrite existsb_exists. split; intros [it [Hin H]]; exists it.
  - split; [assumption |]. apply existsb_exists in H. destruct H as [k [Hk Heq]].
    apply Nat.eqb_eq in Heq. now subst.
  - split; [assumption |]. apply existsb_exists. exists i. split; [assumption |].
    apply Nat.eqb_refl.
Qed.

(** Rule 4: a completion row matches no parsed item. *)
Lemma completion_never_bound rows items i mi :
  nth_error rows i = Some mi -> is_completion mi = true ->
  row_bound rows items i = false.
Proof.
  intros Hnth Hc. destruct (row_bound rows items i) eqn:Hb; [| reflexivity].
  apply row_bound_true in Hb. destruct Hb as [it [_ Hin]].
  apply bound_rows_sound in Hin. destruct Hin as [mj [Hnth' [Hu _]]].
  rewrite Hnth in Hnth'. injection Hnth' as <-.
  unfold is_completion in Hc. rewrite Hu in Hc.
  rewrite andb_false_r in Hc. discriminate.
Qed.

Lemma build_plan_rows rows items r :
  In r (build_plan rows items) -> rec_rows r = bound_rows rows (rec_item r).
Proof.
  unfold build_plan. intros H. apply in_flat_map in H. destruct H as [it [_ H]].
  destruct (bound_rows rows it) eqn:Hb; cbn in H; [contradiction |].
  destruct H as [<- | []]. cbn. now rewrite Hb.
Qed.


(** *** Required rows *)







(** *** Completion rows *)

Lemma hmap_attach_success items sc a tr :
  hmap_attach (inr items) sc = inr (a, tr) ->
  tr = [Ev_sink_create]
       ++ List.map Ev_sink (announce_props (sc_evdev_props sc))
       ++ List.map Ev_sink (announce (collected (sc_map sc) items))
       ++ flat_map
            (fun rc => invoke_completion HMAP_CB_IS_ATTACHING (fst rc) (snd rc))
            (completion_rows (sc_map sc) 0)
       ++ [Ev_sink_register; Ev_intr_register]
  /\ completions a
     = List.map (fun rc => (fst rc, snd rc, attach_only (snd rc)))
         (completion_rows (sc_map sc) 0)
  /\ plan a = build_plan (sc_map sc) items.
Proof.
  unfold hmap_attach.
  destruct (first_unbound_required _ _ _); [discriminate |].
  intros H. injection H as <- <-. auto.
Qed.

Lemma callbacks_of_app row l1 l2 :
  callbacks_of row (l1 ++ l2) = callbacks_of row l1 ++ callbacks_of row l2.
Proof. apply filter_app. Qed.

Lemma callbacks_of_sink row calls : callbacks_of row (List.map Ev_sink calls) = [].
Proof. induction calls as [| c calls IH]; [reflexivity | exact IH]. Qed.

Lemma callbacks_of_invoke st r cb row :
  callbacks_of row (invoke_completion st r cb) =
  if Nat.eqb r row then [Ev_callback r st None 0 (snd (cb st None 0))] else [].
Proof.
  unfold invoke_completion. destruct (cb st None 0) as [calls ret].
  unfold callbacks_of. cbn [filter is_callback_of snd].
  fold (callbacks_of row (List.map Ev_sink calls)). rewrite callbacks_of_sink.
  destruct (Nat.eqb r row); reflexivity.
Qed.

(** The events [g] produces for the completion rows of a map, row by row:
    only the row's own callback shows up under its index. *)
Lemma completion_events_of_row (g : nat -> hmap_cb_t -> list hmap_event) rows :
  (forall r cb row, r <> row -> callbacks_of row (g r cb) = []) ->
  forall i,
    (forall row, (row < i)%nat ->
       callbacks_of row
         (flat_map (fun rc => g (fst rc) (snd rc)) (completion_rows rows i)) = [])
    /\ (forall k mi cb,
          nth_error rows k = Some mi -> is_completion mi = true ->
          payload mi = Callback cb ->
          callbacks_of (i + k)
            (flat_map (fun rc => g (fst rc) (snd rc)) (completion_rows rows i))
          = callbacks_of (i + k) (g (i + k)%nat cb)).
Proof.
  intros Hg. induction rows as [| m rest IH]; intros i.
  - split; [reflexivity |]. intros [| k]; discriminate.
  - destruct (IH (S i)) as [IHlow IHrow].
    assert (Hstep : forall row,
               callbacks_of row
                 (flat_map (fun rc => g (fst rc) (snd rc)) (completion_rows (m :: rest) i))
               = (match payload m with
                  | Callback cb => if is_completion m then callbacks_of row (g i cb) else []
                  | Event _ _ => []
                  end)
                 ++ callbacks_of row
                      (flat_map (fun rc => g (fst rc) (snd rc))
                         (completion_rows rest (S i)))).
    { intros row. cbn [completion_rows].
      destruct (payload m) as [t c | cb]; [reflexivity |].
      destruct (is_completion m); [| reflexivity].
      cbn [flat_map fst snd]. apply callbacks_of_app. }
    split.
    + intros row Hlt. rewrite Hstep, IHlow by lia.
      destruct (payload m) as [t c | cb]; [reflexivity |].
      destruct (is_completion m); [| reflexivity].
      rewrite Hg by lia. reflexivity.
    + intros k mi cb Hnth Hc Hp. rewrite Hstep. destruct k as [| k].
      * cbn in Hnth. injection Hnth as ->. rewrite Hp, Hc, Nat.add_0_r.
        rewrite IHlow by lia. apply app_nil_r.
      * cbn in Hnth. rewrite Nat.add_succ_r.
        replace (match payload m with
                 | Callback cb0 =>
                   if is_completion m then callbacks_of (S (i + k)) (g i cb0) else []
                 | Event _ _ => []
                 end) with (@nil hmap_event).
        -- exact (IHrow k mi cb Hnth Hc Hp).
        -- destruct (payload m) as [t c | cb0]; [reflexivity |].
           destruct (is_completion m); [| reflexivity].
           rewrite Hg by lia. reflexivity.
Qed.

Lemma attach_completion_once rows i mi cb :
  nth_error rows i = Some mi -> is_completion mi = true -> payload mi = Callback cb ->
  callbacks_of i
    (flat_map (fun rc => invoke_completion HMAP_CB_IS_ATTACHING (fst rc) (snd rc))
       (completion_rows rows 0))
  = [Ev_callback i HMAP_CB_IS_ATTACHING None 0 (snd (cb HMAP_CB_IS_ATTACHING None 0))].
Proof.
  intros Hnth Hc Hp.
  destruct (completion_events_of_row (invoke_completion HMAP_CB_IS_ATTACHING) rows)
    with (i := 0%nat) as [_ Hrow].
  - intros r cb' row Hne. rewrite callbacks_of_invoke.
    destruct (Nat.eqb_spec r row); [contradiction | reflexivity].
  - pose proof (Hrow i mi cb Hnth Hc Hp) as H. cbn [Nat.add] in H. rewrite H.
    rewrite callbacks_of_invoke, Nat.eqb_refl. reflexivity.
Qed.

Lemma attach_trace_callbacks items sc a tr i mi cb :
  hmap_attach (inr items) sc = inr (a, tr) ->
  nth_error (sc_map sc) i = Some mi -> is_completion mi = true ->
  payload mi = Callback cb ->
  callbacks_of i tr
  = [Ev_callback i HMAP_CB_IS_ATTACHING None 0 (snd (cb HMAP_CB_IS_ATTACHING None 0))].
Proof.
  intros Hatt Hnth Hc Hp. apply hmap_attach_success in Hatt.
  destruct Hatt as [-> _].
  rewrite !callbacks_of_app, !callbacks_of_sink.
  rewrite (attach_completion_once _ i mi cb Hnth Hc Hp). reflexivity.
Qed.

Lemma detach_completion_events (l : list (nat * hmap_cb_t)) :
  flat_map
    (fun c : nat * hmap_cb_t * bool =>
       let '(row, cb, only) := c in
       if only then [] else invoke_completion HMAP_CB_IS_DETACHING row cb)
    (List.map (fun rc => (fst rc, snd rc, attach_only (snd rc))) l)
  = flat_map
      (fun rc =>
         (fun row cb =>
            if attach_only cb then []
            else invoke_completion HMAP_CB_IS_DETACHING row cb) (fst rc) (snd rc))
      l.
Proof.
  induction l as [| [row cb] l IH]; [reflexivity |].
  cbn [List.map flat_map fst snd]. now rewrite IH.
Qed.

Lemma detach_trace_callbacks items sc a tr i mi cb :
  hmap_attach (inr items) sc = inr (a, tr) ->
  nth_error (sc_map sc) i = Some mi -> is_completion mi = true ->
  payload mi = Callback cb ->
  callbacks_of i (hmap_detach a)
  = if attach_only cb then []
    else [Ev_callback i HMAP_CB_IS_DETACHING None 0
            (snd (cb HMAP_CB_IS_DETACHING None 0))].
Proof.
  intros Hatt Hnth Hc Hp. apply hmap_attach_success in Hatt.
  destruct Hatt as [_ [Hcompl _]].
  unfold hmap_detach. rewrite Hcompl, detach_completion_events.
  rewrite !callbacks_of_app.
  destruct (completion_events_of_row
              (fun row cb => if attach_only cb then []
                             else invoke_completion HMAP_CB_IS_DETACHING row cb)
              (sc_map sc))
    with (i := 0%nat) as [_ Hrow].
  - intros r cb' row Hne. destruct (attach_only cb'); [reflexivity |].
    rewrite callbacks_of_invoke.
    destruct (Nat.eqb_spec r row); [contradiction | reflexivity].
  - pose proof (Hrow i mi cb Hnth Hc Hp) as H. cbn [Nat.add] in H. rewrite H.
    destruct (attach_only cb); [reflexivity |].
    rewrite callbacks_of_invoke, Nat.eqb_refl. reflexivity.
Qed.









(** *** The dispatcher and completion rows *)

(** A record keeps its item and its rows, and only a row it is paired with
    has its callback invoked. *)
Lemma dispatch_one_spec rows id bytes r i :
  rec_rows (fst (dispatch_one rows id bytes r)) = rec_rows r
  /\ rec_item (fst (dispatch_one rows id bytes r)) = rec_item r
  /\ (~ In i (rec_rows r) -> callbacks_of i (snd (dispatch_one rows id bytes r)) = []).
Proof.
  unfold dispatch_one.
  destruct (negb (report_id (location (rec_item r)) =? id)); [cbn; auto |].
  destruct (item_usage (rec_item r)) as [u | usages | lo hi].
  - destruct (rec_rows r) as [| row rest] eqn:Hrows; [cbn; auto |].
    destruct (nth_error rows row) as [mi |]; [| cbn; auto].
    destruct (payload mi) as [type code | cb].
    + cbn. auto.
    + destruct (cb HMAP_CB_IS_RUNNING _ _) as [calls ret]. cbn [fst snd].
      repeat split; auto.
      intros Hnot. unfold callbacks_of. cbn [filter is_callback_of].
      destruct (Nat.eqb_spec row i) as [-> | Hne]; [exfalso; apply Hnot; now left |].
      fold (callbacks_of i
              (List.map Ev_sink calls
               ++ (if ret =? 0 then [] else [Ev_log_callback_error row ret]))).
      rewrite callbacks_of_app, callbacks_of_sink.
      destruct (ret =? 0); reflexivity.
  - destruct (fold_left _ _ _) as [last out]. cbn [fst snd rec_rows rec_item].
    repeat split; auto. intros _. apply callbacks_of_sink.
  - destruct (fold_left _ _ _) as [last out]. cbn [fst snd rec_rows rec_item].
    repeat split; auto. intros _. apply callbacks_of_sink.
Qed.

Lemma dispatch_plan_spec rows id bytes i : forall records,
  Forall (fun r => ~ In i (rec_rows r)) records ->
  Forall (fun r => ~ In i (rec_rows r)) (fst (dispatch_plan rows id bytes records))
  /\ callbacks_of i (snd (dispatch_plan rows id bytes records)) = [].
Proof.
  induction records as [| r rest IH]; intros H; [cbn; auto |].
  inversion H as [| r' rest' Hr Hrest]; subst.
  cbn [dispatch_plan].
  destruct (dispatch_one_spec rows id bytes r i) as [Hrows [_ Hcb]].
  destruct (dispatch_one rows id bytes r) as [r1 t1].
  destruct (IH Hrest) as [IH1 IH2].
  destruct (dispatch_plan rows id bytes rest) as [rest1 t2].
  cbn [fst snd] in *. split.
  - constructor; [now rewrite Hrows | assumption].
  - rewrite callbacks_of_app, (Hcb Hr), IH2. reflexivity.
Qed.

Lemma hmap_intr_spec a id bytes i :
  Forall (fun r => ~ In i (rec_rows r)) (plan a) ->
  Forall (fun r => ~ In i (rec_rows r)) (plan (fst (hmap_intr a id bytes)))
  /\ completions (fst (hmap_intr a id bytes)) = completions a
  /\ callbacks_of i (snd (hmap_intr a id bytes)) = [].
Proof.
  intros H. unfold hmap_intr.
  destruct (dispatch_plan_spec (sc_map (softc a)) id bytes i (plan a) H) as [H1 H2].
  destruct (dispatch_plan (sc_map (softc a)) id bytes (plan a)) as [records tr].
  cbn [fst snd plan completions] in *. repeat split; auto.
  rewrite callbacks_of_app, H2. reflexivity.
Qed.

Lemma hmap_intr_all_spec i reports : forall a,
  Forall (fun r => ~ In i (rec_rows r)) (plan a) ->
  completions (fst (hmap_intr_all a reports)) = completions a
  /\ callbacks_of i (snd (hmap_intr_all a reports)) = [].
Proof.
  induction reports as [| [id bytes] rest IH]; intros a H; [cbn; auto |].
  cbn [hmap_intr_all].
  destruct (hmap_intr_spec a id bytes i H) as [H1 [H2 H3]].
  destruct (hmap_intr a id bytes) as [a1 t1]. cbn [fst snd] in *.
  destruct (IH a1 H1) as [IH1 IH2].
  destruct (hmap_intr_all a1 rest) as [a2 t2]. cbn [fst snd] in *.
  split; [congruence |].
  rewrite callbacks_of_app, H3, IH2. reflexivity.
Qed.

(** C3.  The callback of a completion row returns a value.  When attach
    succeeds the row is invoked at the end of attach whatever it returns;
    if it returned [ENOSYS] there, detach does not invoke it; if it returned
    anything else, 0 or not, detach invokes it once, in the detaching state
    with [(sc, NULL, 0)].  The row matches no parsed item and no record of
    the dispatch plan refers to it, and the dispatcher never invokes it:
    whatever reports the transport delivers between attach and detach, the
    callback of the row does not run at interrupt time, and detach treats
    the row afterwards as it would have before.  Both completion callbacks
    of the pen driver return [ENOSYS] in every state. *)
Theorem enosys_marks_completion_attach_only :
  (forall (sc : hmap_softc) (items : list parsed_item)
          (a : hmap_attached) (tr : list hmap_event)
          (i : nat) (mi : hmap_item) (cb : hmap_cb_t),
      hmap_attach (inr items) sc = inr (a, tr) ->
      nth_error (sc_map sc) i = Some mi -> is_completion mi = true ->
      payload mi = Callback cb ->
      let ret := snd (cb HMAP_CB_IS_ATTACHING None 0) in
      callbacks_of i tr = [Ev_callback i HMAP_CB_IS_ATTACHING None 0 ret]
      /\ (ret = ENOSYS -> callbacks_of i (hmap_detach a) = [])
      /\ (ret <> ENOSYS ->
          callbacks_of i (hmap_detach a)
          = [Ev_callback i HMAP_CB_IS_DETACHING None 0
               (snd (cb HMAP_CB_IS_DETACHING None 0))])
      /\ row_bound (sc_map sc) items i = false
      /\ (forall r, In r (plan a) -> ~ In i (rec_rows r))
      /\ (forall reports : list (Z * list byte),
            callbacks_of i (snd (hmap_intr_all a reports)) = []
            /\ hmap_detach (fst (hmap_intr_all a reports)) = hmap_detach a)
      /\ (ret = ENOSYS ->
          forall reports : list (Z * list byte),
            callbacks_of i
              (snd (hmap_intr_all a reports)
               ++ hmap_detach (fst (hmap_intr_all a reports))) = []))
  /\ (forall st hi ctx,
        snd (Hpen.hpen_compl_pen_cb st hi ctx) = ENOSYS
        /\ snd (Hpen.hpen_compl_digi_cb st hi ctx) = ENOSYS).
Proof.
  split; [| intros st hi ctx; split; reflexivity].
  intros sc items a tr i mi cb Hatt Hnth Hc Hp ret.
  pose proof (detach_trace_callbacks _ _ _ _ _ _ _ Hatt Hnth Hc Hp) as Hdet.
  unfold attach_only in Hdet. fold ret in Hdet.
  assert (Hplan : forall r, In r (plan a) -> ~ In i (rec_rows r)).
  { intros r Hr Hin. destruct (hmap_attach_success _ _ _ _ Hatt) as [_ [_ Hplan]].
    rewrite Hplan in Hr. pose proof Hr as Hr'.
    apply build_plan_rows in Hr. rewrite Hr in Hin.
    apply bound_rows_sound in Hin. destruct Hin as [mj [Hnth' [Hu _]]].
    rewrite Hnth in Hnth'. injection Hnth' as <-.
    unfold is_completion in Hc. rewrite Hu in Hc.
    rewrite andb_false_r in Hc. discriminate. }
  assert (Hintr : forall reports : list (Z * list byte),
             callbacks_of i (snd (hmap_intr_all a reports)) = []
             /\ hmap_detach (fst (hmap_intr_all a reports)) = hmap_detach a).
  { intros reports.
    destruct (hmap_intr_all_spec i reports a) as [H1 H2].
    - apply Forall_forall. exact Hplan.
    - split; [exact H2 |]. unfold hmap_detach. now rewrite H1. }
  assert (Hskip : ret = ENOSYS -> callbacks_of i (hmap_detach a) = []).
  { intros Heq. apply Z.eqb_eq in Heq. now rewrite Heq in Hdet. }
  split; [now apply (attach_trace_callbacks items sc a tr i mi cb) |].
  split; [exact Hskip |].
  split; [intros Hne; apply Z.eqb_neq in Hne; now rewrite Hne in Hdet |].
  split; [now apply (completion_never_bound _ _ _ mi) |].
  split; [exact Hplan |].
  split; [exact Hintr |].
  intros Heq reports. destruct (Hintr reports) as [H1 H2].
  rewrite callbacks_of_app, H1, H2, (Hskip Heq). reflexivity.
Qed.

Lemma enosys_marks_completion_attach_only_witness :
  exists a tr,
    hmap_attach (inr Hpen.digi_items) Hpen.digi_softc = inr (a, tr)
    /\ callbacks_of 15 tr = [Ev_callback 15 HMAP_CB_IS_ATTACHING None 0 ENOSYS]
    /\ callbacks_of 15 (hmap_detach a) = []
    /\ callbacks_of 15 (snd (hmap_intr_all a [(0, Hpen.digi_report)])) = []
    /\ snd (hmap_intr_all a [(0, Hpen.digi_report)])
       = [ Ev_sink (Evdev_push_event EV_ABS ABS_X 1000);
           Ev_sink (Evdev_push_event EV_ABS ABS_Y 2000);
           Ev_callback 5 HMAP_CB_IS_RUNNING
             (Some (hid_item_of 5 (location (Hpen.abs_variable HUD_BATTERY_STRENGTH 32 8 100))))
             80 0;
           Ev_sink Evdev_sync ].
Proof.
  destruct (hmap_attach (inr Hpen.digi_items) Hpen.digi_softc) as [e | [a tr]] eqn:Hatt;
    [vm_compute in Hatt; discriminate Hatt |].
  exists a, tr. split; [reflexivity |].
  destruct (proj1 enosys_marks_completion_attach_only Hpen.digi_softc Hpen.digi_items a tr
              15%nat (HMAP_COMPL_CB Hpen.hpen_compl_digi_cb) Hpen.hpen_compl_digi_cb
              Hatt eq_refl eq_refl eq_refl)
    as [Hattach [Hskip [_ [_ [_ [Hintr _]]]]]].
  split; [exact Hattach |].
  split; [exact (Hskip eq_refl) |].
  split; [exact (proj1 (Hintr [(0, Hpen.digi_report)])) |].
  vm_compute in Hatt. injection Hatt as <- _. reflexivity.
Defined.


(** *** More on counting capabilities *)

Lemma positions_app first n1 n2 :
  positions first (n1 + n2)
  = positions first n1 ++ positions (first + Z.of_nat n1) n2.
Proof.
  revert first. induction n1 as [| n1 IH]; intros first.
  - cbn [Nat.add positions app]. unfold positions at 2. cbn.
    now rewrite Z.add_0_r.
  - cbn [Nat.add]. rewrite !positions_succ, IH. cbn [app].
    replace (first + 1 + Z.of_nat n1) with (first + Z.of_nat (S n1)) by lia.
    reflexivity.
Qed.

Lemma set_bits_length_bound caps first n :
  (List.length (filter (bit_test caps) (positions first n)) <= n)%nat.
Proof.
  eapply Nat.le_trans; [apply filter_length_le |].
  unfold positions. rewrite length_map, length_seq. lia.
Qed.

(** X10.  Counting over two adjacent index ranges adds up:
    [hmap_count_caps caps first mid + hmap_count_caps caps (mid + 1) last]
    is [hmap_count_caps caps first last]. *)
Theorem hmap_count_caps_adds_up :
  forall (caps : bitstr) (first mid last : Z),
    INT_MIN <= first -> first <= mid -> mid < last -> last < INT_MAX ->
    hmap_count_caps caps first mid + hmap_count_caps caps (mid + 1) last
    = hmap_count_caps caps first last.
Proof.
  intros caps first mid last Hmin H1 H2 Hmax.
  rewrite !hmap_count_caps_spec by (unfold INT_MIN, INT_MAX in *; lia).
  unfold set_bits.
  replace (Z.to_nat (last - first + 1))
    with (Z.to_nat (mid - first + 1) + Z.to_nat (last - (mid + 1) + 1))%nat by lia.
  rewrite positions_app, filter_app, length_app.
  replace (first + Z.of_nat (Z.to_nat (mid - first + 1))) with (mid + 1) by lia.
  lia.
Qed.

Lemma hmap_count_caps_adds_up_witness :
  (INT_MIN <= 0 /\ 0 <= 2 /\ 2 < 10 /\ 10 < INT_MAX)
  /\ hmap_count_caps [1735] 0 2 + hmap_count_caps [1735] 3 10
     = hmap_count_caps [1735] 0 10.
Proof.
  assert (H0 : INT_MIN <= 0) by (vm_compute; discriminate).
  assert (H1 : 0 <= 2) by (vm_compute; discriminate).
  assert (H2 : 2 < 10) by reflexivity.
  assert (H3 : 10 < INT_MAX) by reflexivity.
  split; [auto |].
  exact (hmap_count_caps_adds_up [1735] 0 2 10 H0 H1 H2 H3).
Defined.

(** X11.  [hmap_count_caps] never reports more capabilities than the range
    has indices, and none at all for an empty range ([last < first]); on a
    single index it agrees with [hmap_test_cap]. *)
Theorem hmap_count_caps_bounds :
  forall (caps : bitstr) (first last : Z),
    INT_MIN <= last -> last < INT_MAX ->
    (first <= last ->
     0 <= hmap_count_caps caps first last <= last - first + 1)
    /\ (last < first -> hmap_count_caps caps first last = 0)
    /\ (first = last ->
        hmap_count_caps caps first last = if hmap_test_cap caps first then 1 else 0).
Proof.
  intros caps first last Hmin Hmax. split; [| split].
  - intros Hle. rewrite hmap_count_caps_spec by assumption.
    unfold set_bits.
    pose proof (set_bits_length_bound caps first (Z.to_nat (last - first + 1))).
    lia.
  - intros Hlt. unfold hmap_count_caps, bit_count, int_add.
    rewrite int_wrap_small by (unfold INT_MIN, INT_MAX in *; lia).
    destruct (last + 1 <=? first) eqn:Hc; [reflexivity |].
    apply Z.leb_gt in Hc. lia.
  - intros ->. rewrite hmap_count_caps_spec by (assumption || lia).
    unfold set_bits, hmap_test_cap.
    replace (last - last + 1) with 1 by lia.
    change (Z.to_nat 1) with 1%nat. rewrite positions_succ. cbn [positions filter].
    unfold positions. cbn [seq List.map filter].
    now destruct (bit_test caps last).
Qed.

Lemma hmap_count_caps_bounds_witness :
  (INT_MIN <= 3 /\ 3 < INT_MAX /\ 5 > 3)
  /\ hmap_count_caps [1735] 5 3 = 0.
Proof.
  assert (H0 : INT_MIN <= 3) by (vm_compute; discriminate).
  assert (H1 : 3 < INT_MAX) by reflexivity.
  assert (H2 : 3 < 5) by reflexivity.
  split; [repeat split; auto |].
  exact (proj1 (proj2 (hmap_count_caps_bounds [1735] 5 3 H0 H1)) H2).
Defined.

(** *** Evdev properties *)

(** X12.  [hmap_set_evdev_prop] with a property below [INPUT_PROP_CNT]
    sets that property in a property bit string of [INPUT_PROP_CNT] bits
    and no other: afterwards the property tests true, every other bit tests
    as before, and the map and the report size are untouched.  Setting it a
    second time changes nothing. *)
Theorem hmap_set_evdev_prop_sets_one_bit :
  forall (sc : hmap_softc) (prop : Z),
    List.length (sc_evdev_props sc) = Z.to_nat (bitstr_size INPUT_PROP_CNT) ->
    0 <= prop -> prop < INPUT_PROP_CNT ->
    let sc' := hmap_set_evdev_prop sc prop in
    bit_test (sc_evdev_props sc') prop = true
    /\ (forall other, 0 <= other -> other <> prop ->
          bit_test (sc_evdev_props sc') other = bit_test (sc_evdev_props sc) other)
    /\ sc_map sc' = sc_map sc /\ sc_isize sc' = sc_isize sc
    /\ List.length (sc_evdev_props sc') = List.length (sc_evdev_props sc)
    /\ (forall bit, 0 <= bit ->
          bit_test (sc_evdev_props (hmap_set_evdev_prop sc' prop)) bit
          = bit_test (sc_evdev_props sc') bit).
Proof.
  intros sc prop Hlen Hp0 Hp sc'. subst sc'. unfold hmap_set_evdev_prop.
  cbn [sc_evdev_props sc_map sc_isize].
  assert (Hidx : (Z.to_nat (prop / BITSTR_BITS) < List.length (sc_evdev_props sc))%nat).
  { rewrite Hlen. unfold INPUT_PROP_CNT in Hp.
    replace (prop / BITSTR_BITS) with 0
      by (symmetry; apply Z.div_small; unfold BITSTR_BITS; lia).
    vm_compute. lia. }
  repeat split.
  - rewrite bit_test_bit_set by assumption. now rewrite Z.eqb_refl.
  - intros other Ho Hne. rewrite bit_test_bit_set by assumption.
    replace (prop =? other) with false by (symmetry; apply Z.eqb_neq; lia).
    reflexivity.
  - apply bit_set_length.
  - intros bit Hb.
    rewrite (bit_test_bit_set (bit_set (sc_evdev_props sc) prop))
      by (try assumption; now rewrite bit_set_length).
    rewrite bit_test_bit_set by assumption.
    now destruct (prop =? bit).
Qed.

Lemma hmap_set_evdev_prop_sets_one_bit_witness :
  (List.length (sc_evdev_props Hpen.pen_softc) = Z.to_nat (bitstr_size INPUT_PROP_CNT)
   /\ 0 <= INPUT_PROP_DIRECT /\ INPUT_PROP_DIRECT < INPUT_PROP_CNT)
  /\ bit_test (sc_evdev_props (hmap_set_evdev_prop Hpen.pen_softc INPUT_PROP_DIRECT))
       INPUT_PROP_DIRECT = true.
Proof.
  assert (H0 : 0 <= INPUT_PROP_DIRECT) by (vm_compute; discriminate).
  assert (H1 : INPUT_PROP_DIRECT < INPUT_PROP_CNT) by reflexivity.
  split; [repeat split; auto |].
  exact (proj1 (hmap_set_evdev_prop_sets_one_bit Hpen.pen_softc INPUT_PROP_DIRECT
                  eq_refl H0 H1)).
Defined.

End MapProperties.

(** * Properties of the pen driver *)

Section PenProperties.
Import CInt Errno Hmap Hpen.

(** C5.  With the Graphire3 quirk present, [hpen_attach] first writes the
    3-byte feature report [{2, 2, 2}] to feature report ID 2 and only then
    runs [hmap_attach]; a failure of the write is logged and nothing else:
    the value returned is the value [hmap_attach] returns, whatever the
    write answered.  Without the quirk [hmap_attach] runs at once. *)
Theorem hpen_attach_graphire_write_ignored :
  forall (hid_set_report hmap_attach : list hid_call -> Z) (done : list hid_call),
    let write := Hid_set_report [x02; x02; x02] 3 HID_FEATURE_REPORT 2 in
    let error := hid_set_report done in
    let logged :=
      if error =? 0 then []
      else [Hid_dprintf "set feature report failed, error=%d (ignored)" [error]] in
    hpen_attach hid_set_report hmap_attach true done
    = (hmap_attach (done ++ write :: logged),
       done ++ write :: logged ++ [Hmap_attach_call])
    /\ hpen_attach hid_set_report hmap_attach false done
       = (hmap_attach done, done ++ [Hmap_attach_call]).
Proof.
  intros hid_set_report hmap_attach done write error logged.
  subst write error logged. unfold hpen_attach, hpen_attach_quirk.
  split; [| reflexivity].
  destruct (hid_set_report done =? 0); cbn [negb];
    rewrite <- ?app_assoc; reflexivity.
Qed.

End PenProperties.

(** * Properties of the report request *)

Section ReportProperties.
Import CInt Errno IichidReport.

Lemma forall_range (P : Z -> bool) (n : nat) :
  forallb (fun k => P (Z.of_nat k)) (seq 0 n) = true ->
  forall z, 0 <= z < Z.of_nat n -> P z = true.
Proof.
  intros H z Hz. rewrite forallb_forall in H.
  specialize (H (Z.to_nat z)). rewrite Z2Nat.id in H by lia.
  apply H, in_seq. lia.
Qed.

Lemma u16_split c :
  0 <= c < 65536 -> u8 (Z.land c 255) + 256 * u8 (Z.shiftr c 8) = c.
Proof.
  intros Hc. unfold u8.
  change 255 with (Z.ones 8). rewrite Z.land_ones by lia.
  rewrite Z.shiftr_div_pow2 by lia. change (2 ^ 8) with 256.
  rewrite Z.mod_mod by lia.
  rewrite (Z.mod_small (c / 256)).
  - pose proof (Z.div_mod c 256). lia.
  - split; [apply Z.div_pos; lia | apply Z.div_lt_upper_bound; lia].
Qed.

Lemma short_form_nibbles t i :
  0 <= t < 16 -> 0 <= i < 15 ->
  let b := u8 (Z.lor i (Z.shiftl t 4)) in
  Z.land b 15 = i /\ Z.shiftr b 4 = t.
Proof.
  intros Ht Hi b. subst b.
  pose (P := fun t i =>
    (if 15 <=? i then true
     else (Z.land (u8 (Z.lor i (Z.shiftl t 4))) 15 =? i)
          && (Z.shiftr (u8 (Z.lor i (Z.shiftl t 4))) 4 =? t))).
  assert (H : forall t, 0 <= t < Z.of_nat 16 ->
            (fun t => forallb (fun k => P t (Z.of_nat k)) (seq 0 16)) t = true).
  { apply forall_range. vm_compute. reflexivity. }
  specialize (H t ltac:(lia)). cbv beta in H.
  pose proof (forall_range (P t) 16 H i ltac:(lia)) as Hb.
  unfold P in Hb. destruct (Z.leb_spec 15 i); [lia |].
  apply andb_true_iff in Hb. destruct Hb as [H1 H2].
  apply Z.eqb_eq in H1, H2. auto.
Qed.

Lemma long_form_nibbles t :
  0 <= t < 16 ->
  let b := u8 (Z.lor 15 (Z.shiftl t 4)) in
  Z.land b 15 = 15 /\ Z.shiftr b 4 = t.
Proof.
  intros Ht b. subst b.
  pose (P := fun t =>
    (Z.land (u8 (Z.lor 15 (Z.shiftl t 4))) 15 =? 15)
    && (Z.shiftr (u8 (Z.lor 15 (Z.shiftl t 4))) 4 =? t)).
  assert (H : forall t, 0 <= t < Z.of_nat 16 -> P t = true).
  { apply forall_range. vm_compute. reflexivity. }
  specialize (H t ltac:(lia)). unfold P in H.
  apply andb_true_iff in H. destruct H as [H1 H2].
  apply Z.eqb_eq in H1, H2. auto.
Qed.

(** The device reads back from the command what the driver put in. *)
Lemma parse_get_report_cmd_spec op cmdreg dtareg type id :
  0 <= cmdreg < 65536 -> 0 <= dtareg < 65536 ->
  0 <= type < 16 -> 0 <= id < 256 ->
  parse_get_report_cmd
    (firstn (Z.to_nat (get_report_cmdlen id)) (get_report_cmd op cmdreg dtareg type id))
  = Some (cmdreg, type, id, dtareg).
Proof.
  intros Hc Hd Ht Hi. unfold get_report_cmdlen, get_report_cmd.
  destruct (Z.leb_spec 15 id) as [Hge | Hlt].
  - change (Z.to_nat 7) with 7%nat. cbn [firstn parse_get_report_cmd].
    destruct (long_form_nibbles type Ht) as [H1 H2].
    rewrite H1, H2. cbn [Z.eqb Pos.eqb].
    rewrite (u16_split cmdreg Hc), (u16_split dtareg Hd).
    unfold u8 at 1. rewrite Z.mod_small by lia. reflexivity.
  - change (Z.to_nat 6) with 6%nat. cbn [firstn parse_get_report_cmd].
    destruct (short_form_nibbles type id Ht ltac:(lia)) as [H1 H2].
    rewrite H1, H2.
    replace (id =? 15) with false by (symmetry; apply Z.eqb_neq; lia).
    rewrite (u16_split cmdreg Hc), (u16_split dtareg Hd). reflexivity.
Qed.

(** X13.  The command [iichid_get_report] sends is unambiguous: two
    requests whose command and data registers are 16-bit values, whose
    report types are below 16 and whose report IDs are bytes put the same
    bytes on the bus only if they agree in all four.  In particular the
    7-byte form for IDs from 15 on is never mistaken for the 6-byte form. *)
Theorem get_report_cmd_unambiguous :
  forall (op cmdreg dtareg type id cmdreg' dtareg' type' id' : Z),
    0 <= cmdreg < 65536 -> 0 <= dtareg < 65536 ->
    0 <= type < 16 -> 0 <= id < 256 ->
    0 <= cmdreg' < 65536 -> 0 <= dtareg' < 65536 ->
    0 <= type' < 16 -> 0 <= id' < 256 ->
    firstn (Z.to_nat (get_report_cmdlen id)) (get_report_cmd op cmdreg dtareg type id)
    = firstn (Z.to_nat (get_report_cmdlen id'))
        (get_report_cmd op cmdreg' dtareg' type' id') ->
    cmdreg = cmdreg' /\ dtareg = dtareg' /\ type = type' /\ id = id'.
Proof.
  intros op c d t i c' d' t' i' Hc Hd Ht Hi Hc' Hd' Ht' Hi' Heq.
  pose proof (parse_get_report_cmd_spec op c d t i Hc Hd Ht Hi) as H1.
  pose proof (parse_get_report_cmd_spec op c' d' t' i' Hc' Hd' Ht' Hi') as H2.
  rewrite Heq, H2 in H1. inversion H1. auto.
Qed.

Lemma get_report_cmd_unambiguous_witness :
  (0 <= 34 < 65536 /\ 0 <= 35 < 65536 /\ 0 <= 3 < 16 /\ 0 <= 8 < 256
   /\ 0 <= 34 < 65536 /\ 0 <= 35 < 65536 /\ 0 <= 3 < 16 /\ 0 <= 8 < 256
   /\ firstn (Z.to_nat (get_report_cmdlen 8)) (get_report_cmd 2 34 35 3 8)
      = firstn (Z.to_nat (get_report_cmdlen 8)) (get_report_cmd 2 34 35 3 8))
  /\ (34 = 34 /\ 35 = 35 /\ 3 = 3 /\ 8 = 8).
Proof.
  assert (Hc : 0 <= 34 < 65536) by lia.
  assert (Hd : 0 <= 35 < 65536) by lia.
  assert (Ht : 0 <= 3 < 16) by lia.
  assert (Hi : 0 <= 8 < 256) by lia.
  split; [repeat split; lia |].
  exact (get_report_cmd_unambiguous 2 34 35 3 8 34 35 3 8
           Hc Hd Ht Hi Hc Hd Ht Hi eq_refl).
Defined.

Lemma fill_length n resp : List.length (fill n resp) = Z.to_nat n.
Proof.
  unfold fill. rewrite length_firstn, length_app, repeat_length. lia.
Qed.

Lemma fill_exact n resp : List.length resp = Z.to_nat n -> fill n resp = resp.
Proof.
  intros H. unfold fill. rewrite firstn_app, <- H, firstn_all, Nat.sub_diag.
  cbn [firstn]. apply app_nil_r.
Qed.

Lemma report_id_len_range id : 1 <= report_id_len id <= 2.
Proof. unfold report_id_len. destruct (15 <=? id); lia. Qed.

(** X14.  [iichid_get_report] answers 0, [EIO] or [EBADMSG] and nothing
    else: whatever error the bus transfer returned is reported as [EIO].
    On an error the caller's buffer is not written.  On success the caller
    gets exactly [len] bytes, also when the length field of the response
    disagrees; for a response of the requested size these are the bytes
    that follow the 2-byte length and the report ID. *)
Theorem get_report_outcomes :
  forall (op addr wDataRegister wCommandRegister len type id : Z)
         (xfer : Z * list byte),
    0 <= len -> len + 4 <= INT_MAX ->
    let r := iichid_get_report op addr wDataRegister wCommandRegister len type id xfer in
    let err := fst (fst r) in
    let buf := snd (fst r) in
    (err = 0 \/ err = EIO \/ err = EBADMSG)
    /\ (err = EIO <-> fst xfer <> 0)
    /\ (err <> 0 -> buf = None)
    /\ (err = 0 ->
        exists b, buf = Some b
          /\ List.length b = Z.to_nat len
          /\ (List.length (snd xfer) = Z.to_nat (len + 2 + report_id_len id) ->
              b = skipn (Z.to_nat (2 + report_id_len id)) (snd xfer))).
Proof.
  intros op addr dreg creg len type id [e resp] Hlen Hmax r err buf.
  subst err buf r. unfold iichid_get_report. cbn [fst snd].
  pose proof (report_id_len_range id) as Hid.
  assert (Hrl : int_add (int_add len 2) (report_id_len id) = len + 2 + report_id_len id).
  { unfold int_add. rewrite (int_wrap_small (len + 2))
      by (unfold INT_MIN, INT_MAX in *; lia).
    apply int_wrap_small. unfold INT_MIN, INT_MAX in *; lia. }
  assert (Hoff : int_add 2 (report_id_len id) = 2 + report_id_len id).
  { unfold int_add. apply int_wrap_small. unfold INT_MIN, INT_MAX in *; lia. }
  rewrite Hrl, Hoff.
  destruct (Z.eqb_spec e 0) as [He | He]; cbn [negb].
  - match goal with
    | |- context [if negb (?d =? id) then _ else _] =>
        destruct (Z.eqb_spec d id) as [Hd | Hd]
    end; cbn [negb fst snd].
    + repeat split; try (unfold EIO; intros; (discriminate || congruence)).
      * now left.
      * intros _. eexists. split; [reflexivity |]. split.
        -- rewrite length_firstn, length_skipn, fill_length. lia.
        -- intros Hl. rewrite (fill_exact _ _ Hl).
           apply firstn_all2. rewrite length_skipn, Hl. lia.
    + repeat split; try (unfold EIO, EBADMSG; intros; (discriminate || congruence)).
      now right; right.
  - repeat split; try (unfold EIO; intros; (discriminate || congruence)).
    now right; left.
Qed.

Lemma get_report_outcomes_witness :
  (0 <= 2 /\ 2 + 4 <= INT_MAX)
  /\ (fst (fst (iichid_get_report 2 44 5 4 2 3 8 (6, @nil byte))) = EIO
      <-> fst (6, @nil byte) <> 0).
Proof.
  assert (H0 : 0 <= 2) by lia.
  assert (H1 : 2 + 4 <= INT_MAX) by (vm_compute; discriminate).
  split; [auto |].
  exact (proj1 (proj2 (get_report_outcomes 2 44 5 4 2 3 8 (6, @nil byte) H0 H1))).
Defined.

(** X15.  On every path [iichid_get_report] allocates its temporary buffer
    once, transfers once, reading exactly as many bytes as it allocated,
    and frees the buffer once, in this order: no path leaks the buffer or
    frees it twice. *)
Theorem get_report_frees_buffer_once :
  forall (op addr wDataRegister wCommandRegister len type id : Z)
         (xfer : Z * list byte),
    let r := iichid_get_report op addr wDataRegister wCommandRegister len type id xfer in
    let n := int_add (int_add len 2) (report_id_len id) in
    kernel_calls (snd r)
    = [R_malloc n;
       iichid_fetch_buffer addr
         (get_report_cmd op (htole16 wCommandRegister) (htole16 wDataRegister) type id)
         (get_report_cmdlen id) n;
       R_free].
Proof.
  intros op addr dreg creg len type id [e resp] r n. subst r n.
  unfold iichid_get_report, kernel_calls. cbn [fst snd].
  destruct (negb (e =? 0)); cbn [snd]; [reflexivity |].
  repeat match goal with
  | |- context [if ?c then _ else _] => destruct c
  end; reflexivity.
Qed.

End ReportProperties.

(** * Properties of discovery and initialisation *)

Section AcpiProperties.
Import CInt Errno IichidAcpi.

Lemma res_walk_cb_spec res hw :
  let r := iichid_res_walk_cb res hw in
  fst (fst r) = (if wrong_bus res then AE_TYPE else AE_OK)
  /\ hid (snd (fst r)) = hid hw
  /\ config_reg (snd (fst r)) = config_reg hw
  /\ filter is_free_dsm (snd r) = []
  /\ filter is_free_info (snd r) = []
  /\ filter is_add_child (snd r) = [].
Proof.
  destruct res as [bus a | ints | ct pins | | ty]; cbn.
  - destruct (bus =? ACPI_RESOURCE_SERIAL_TYPE_I2C); cbn; auto 10.
  - destruct (0 <? Z.of_nat (List.length ints)); cbn; auto 10.
  - destruct (ct =? ACPI_RESOURCE_GPIO_TYPE_INT); cbn; auto 10.
  - auto 10.
  - auto 10.
Qed.

Lemma walk_resources_spec rs : forall hw,
  let r := walk_resources rs hw in
  fst (fst r) = (if existsb wrong_bus rs then AE_TYPE else AE_OK)
  /\ hid (snd (fst r)) = hid hw
  /\ config_reg (snd (fst r)) = config_reg hw
  /\ filter is_free_dsm (snd r) = []
  /\ filter is_free_info (snd r) = []
  /\ filter is_add_child (snd r) = [].
Proof.
  induction rs as [| res rs IH]; intros hw; [cbn; auto 10 |].
  cbn [walk_resources existsb].
  pose proof (res_walk_cb_spec res hw) as Hcb. cbv zeta in Hcb.
  destruct (iichid_res_walk_cb res hw) as [[s hw1] t1]. cbn [fst snd] in Hcb.
  destruct Hcb as (Hs & Hh & Hc & Hf1 & Hf2 & Hf3). subst s.
  destruct (wrong_bus res); cbn [ACPI_FAILURE orb].
  - cbn [fst snd]. auto 10.
  - specialize (IH hw1). cbv zeta in IH.
    destruct (walk_resources rs hw1) as [[s2 hw2] t2]. cbn [fst snd] in *.
    destruct IH as (Hs2 & Hh2 & Hc2 & Hg1 & Hg2 & Hg3).
    rewrite !filter_app, Hf1, Hf2, Hf3, Hg1, Hg2, Hg3.
    repeat split; congruence.
Qed.

Lemma walk_resources_cut pre res post : forall hw,
  wrong_bus res = true ->
  walk_resources (pre ++ res :: post) hw = walk_resources (pre ++ [res]) hw.
Proof.
  induction pre as [| p pre IH]; intros hw Hw.
  - cbn [app walk_resources].
    pose proof (res_walk_cb_spec res hw) as Hcb. cbv zeta in Hcb.
    destruct (iichid_res_walk_cb res hw) as [[s hw1] t1]. cbn [fst snd] in Hcb.
    destruct Hcb as (Hs & _). rewrite Hw in Hs. subst s. reflexivity.
  - cbn [app walk_resources].
    destruct (iichid_res_walk_cb p hw) as [[s hw1] t1].
    destruct (ACPI_FAILURE s); [reflexivity |].
    now rewrite IH.
Qed.

(** X16.  The walk over [_CRS] with [iichid_res_walk_cb] fails exactly when
    a serial bus connection is not I2C, with [AE_TYPE]; it stops there, so
    what follows that resource has no influence on the outcome.  Whatever
    the resources are, the walk leaves the hardware ID and the descriptor
    register of the hardware description alone. *)
Theorem walk_resources_stops_at_wrong_bus :
  forall (resources : list acpi_resource) (hw : iichid_hw),
    let r := walk_resources resources hw in
    fst (fst r) = (if existsb wrong_bus resources then AE_TYPE else AE_OK)
    /\ hid (snd (fst r)) = hid hw
    /\ config_reg (snd (fst r)) = config_reg hw
    /\ (forall pre res post,
          resources = pre ++ res :: post -> wrong_bus res = true ->
          r = walk_resources (pre ++ [res]) hw).
Proof.
  intros rs hw r. subst r.
  destruct (walk_resources_spec rs hw) as (H1 & H2 & H3 & _).
  repeat split; try assumption.
  intros pre res post -> Hw. now apply walk_resources_cut.
Qed.

Lemma walk_resources_stops_at_wrong_bus_witness :
  ([Serial_bus 2 44; Extended_irq [7]] = [] ++ Serial_bus 2 44 :: [Extended_irq [7]]
   /\ wrong_bus (Serial_bus 2 44) = true)
  /\ walk_resources [Serial_bus 2 44; Extended_irq [7]] hw_zero
     = walk_resources ([] ++ [Serial_bus 2 44]) hw_zero.
Proof.
  split; [split; reflexivity |].
  exact (proj2 (proj2 (proj2
           (walk_resources_stops_at_wrong_bus [Serial_bus 2 44; Extended_irq [7]] hw_zero)))
           [] (Serial_bus 2 44) [Extended_irq [7]] eq_refl eq_refl).
Defined.

Lemma get_hw_error hid_size node hw :
  fst (fst (iichid_get_hw hid_size node hw))
  = match node_crs node, node_dsm node, node_info node with
    | Some rs, Dsm_object (Obj_integer _), Some _ =>
      if existsb wrong_bus rs then ENXIO else 0
    | _, _, _ => ENXIO
    end.
Proof.
  unfold iichid_get_hw. destruct (node_crs node) as [rs |]; [| reflexivity].
  pose proof (walk_resources_spec rs hw) as Hw. cbv zeta in Hw.
  destruct (walk_resources rs hw) as [[s hw1] t1]. cbn [fst snd] in Hw.
  destruct Hw as (Hs & _). subst s.
  destruct (existsb wrong_bus rs); cbn [ACPI_FAILURE].
  - destruct (node_dsm node) as [? ? | [v | ty]]; try reflexivity.
    destruct (node_info node); reflexivity.
  - destruct (node_dsm node) as [? ? | [v | ty]]; try reflexivity.
    destruct (node_info node); reflexivity.
Qed.

Lemma get_hw_no_add_child hid_size node hw :
  filter is_add_child (snd (iichid_get_hw hid_size node hw)) = [].
Proof.
  unfold iichid_get_hw. destruct (node_crs node) as [rs |]; [| reflexivity].
  pose proof (walk_resources_spec rs hw) as Hw. cbv zeta in Hw.
  destruct (walk_resources rs hw) as [[s hw1] t1]. cbn [fst snd] in Hw.
  destruct Hw as (_ & _ & _ & _ & _ & Hf).
  destruct (ACPI_FAILURE s); cbn [snd]; [rewrite filter_app, Hf; reflexivity |].
  destruct (node_dsm node) as [st [|] | [v | ty]]; cbn [snd];
    try (rewrite filter_app, Hf; reflexivity).
  destruct (node_info node); cbn [snd]; rewrite filter_app, Hf; reflexivity.
Qed.

(** X17.  [iichid_get_hw] answers 0 or [ENXIO].  It answers 0 exactly when
    [_CRS] could be walked without meeting a serial bus that is not I2C,
    [_DSM] returned an integer and the object info could be read.  The
    buffer [_DSM] returns is released once on every path that obtained one,
    never twice, and the device info is released once on success and never
    otherwise. *)
Theorem iichid_get_hw_outcomes :
  forall (hid_size : nat) (node : acpi_node) (hw : iichid_hw),
    let r := iichid_get_hw hid_size node hw in
    let err := fst (fst r) in
    (err = 0 \/ err = ENXIO)
    /\ (err = 0 <->
        (exists rs, node_crs node = Some rs /\ existsb wrong_bus rs = false)
        /\ (exists v, node_dsm node = Dsm_object (Obj_integer v))
        /\ node_info node <> None)
    /\ (List.length (filter is_free_dsm (snd r)) <= 1)%nat
    /\ (forall rs obj,
          node_crs node = Some rs -> existsb wrong_bus rs = false ->
          node_dsm node = Dsm_object obj ->
          List.length (filter is_free_dsm (snd r)) = 1%nat)
    /\ List.length (filter is_free_info (snd r)) = (if err =? 0 then 1%nat else 0%nat).
Proof.
  intros hid_size node hw r err. subst err r.
  rewrite get_hw_error. unfold iichid_get_hw.
  destruct (node_crs node) as [rs |].
  2:{ cbn. repeat split; auto; try discriminate.
      intros [[rs [H _]] _]. discriminate. }
  pose proof (walk_resources_spec rs hw) as Hw. cbv zeta in Hw.
  destruct (walk_resources rs hw) as [[s hw1] t1]. cbn [fst snd] in Hw.
  destruct Hw as (Hs & _ & _ & Hf1 & Hf2 & _). subst s.
  destruct (existsb wrong_bus rs) eqn:Hex; cbn [ACPI_FAILURE];
    destruct (node_dsm node) as [st [|] | [v | ty]];
    try destruct (node_info node) as [info |];
    cbn [snd]; rewrite !filter_app, Hf1, Hf2; cbn;
    repeat split; auto; try discriminate;
    try (intros [[rs' [H H']] _]; inversion H; subst; congruence);
    try (intros [_ [[v' H] _]]; discriminate);
    try (intros [_ [_ H]]; congruence);
    try (intros rs' obj H H' H''; inversion H; subst; congruence);
    try (eexists; split; [reflexivity | assumption]);
    try (eexists; reflexivity).
Qed.

Lemma iichid_get_hw_outcomes_witness :
  (node_crs (touchpad_node 44)
   = Some [Serial_bus ACPI_RESOURCE_SERIAL_TYPE_I2C 44;
           Gpio ACPI_RESOURCE_GPIO_TYPE_INT [27]; End_tag]
   /\ node_dsm (touchpad_node 44) = Dsm_object (Obj_integer 32))
  /\ List.length (filter is_free_dsm (snd (iichid_get_hw 16 (touchpad_node 44) hw_zero)))
     = 1%nat.
Proof.
  split; [split; reflexivity |].
  exact (proj1 (proj2 (proj2 (proj2
           (iichid_get_hw_outcomes 16 (touchpad_node 44) hw_zero))))
           _ (Obj_integer 32) eq_refl eq_refl eq_refl).
Defined.

Section DeviceHw.
Variable ACPI_DEVICE_PRESENT : Z -> bool.
Variable hid_size : nat.

Lemma get_device_hw_cb_readable node hw :
  0 <= device_addr hw < 65536 ->
  readable ACPI_DEVICE_PRESENT hid_size node = true ->
  fst (iichid_get_device_hw_cb ACPI_DEVICE_PRESENT hid_size node hw)
  = node_hw hid_size node.
Proof.
  intros Hr Hrd. unfold readable, node_hw in *. unfold iichid_get_device_hw_cb.
  apply andb_true_iff in Hrd. destruct Hrd as [H1 H2]. rewrite H1.
  destruct (iichid_get_hw hid_size node hw_zero) as [[e buf] t]. cbn [fst snd] in *.
  rewrite H2. unfold IichidReport.u16. rewrite Z.mod_small by lia.
  now rewrite Z.eqb_refl.
Qed.

Lemma get_device_hw_cb_unreadable node hw :
  readable ACPI_DEVICE_PRESENT hid_size node = false ->
  fst (iichid_get_device_hw_cb ACPI_DEVICE_PRESENT hid_size node hw) = hw.
Proof.
  intros Hrd. unfold readable in Hrd. unfold iichid_get_device_hw_cb.
  destruct (acpi_is_iichid ACPI_DEVICE_PRESENT node); [| reflexivity].
  destruct (iichid_get_hw hid_size node hw_zero) as [[e buf] t]. cbn [fst snd] in *.
  cbn [andb] in Hrd. rewrite Hrd. reflexivity.
Qed.

Lemma walk_device_hw_cons node rest hw :
  fst (walk_device_hw ACPI_DEVICE_PRESENT hid_size (node :: rest) hw)
  = fst (walk_device_hw ACPI_DEVICE_PRESENT hid_size rest
           (fst (iichid_get_device_hw_cb ACPI_DEVICE_PRESENT hid_size node hw))).
Proof.
  cbn [walk_device_hw].
  destruct (iichid_get_device_hw_cb ACPI_DEVICE_PRESENT hid_size node hw) as [hw1 t1].
  cbn [fst].
  destruct (walk_device_hw ACPI_DEVICE_PRESENT hid_size rest hw1) as [hw2 t2].
  reflexivity.
Qed.

Lemma walk_device_hw_unreadable nodes : forall hw,
  forallb (fun n => negb (readable ACPI_DEVICE_PRESENT hid_size n)) nodes = true ->
  fst (walk_device_hw ACPI_DEVICE_PRESENT hid_size nodes hw) = hw.
Proof.
  induction nodes as [| n nodes IH]; intros hw H; [reflexivity |].
  cbn [forallb] in H. apply andb_true_iff in H. destruct H as [H1 H2].
  rewrite walk_device_hw_cons, get_device_hw_cb_unreadable
    by (now apply negb_true_iff).
  now apply IH.
Qed.

Lemma walk_device_hw_last pre : forall node post hw,
  0 <= device_addr hw < 65536 ->
  (forall n, In n pre -> readable ACPI_DEVICE_PRESENT hid_size n = true ->
             0 <= device_addr (node_hw hid_size n) < 65536) ->
  readable ACPI_DEVICE_PRESENT hid_size node = true ->
  forallb (fun n => negb (readable ACPI_DEVICE_PRESENT hid_size n)) post = true ->
  fst (walk_device_hw ACPI_DEVICE_PRESENT hid_size (pre ++ node :: post) hw)
  = node_hw hid_size node.
Proof.
  induction pre as [| p pre IH]; intros node post hw Hr Hpre Hn Hpost.
  - cbn [app]. rewrite walk_device_hw_cons, get_device_hw_cb_readable by assumption.
    now apply walk_device_hw_unreadable.
  - cbn [app]. rewrite walk_device_hw_cons.
    destruct (readable ACPI_DEVICE_PRESENT hid_size p) eqn:Hp.
    + rewrite get_device_hw_cb_readable by assumption.
      apply IH; try assumption.
      * apply Hpre; [now left | assumption].
      * intros n Hin. apply Hpre. now right.
    + rewrite get_device_hw_cb_unreadable by assumption.
      apply IH; try assumption.
      intros n Hin. apply Hpre. now right.
Qed.



End DeviceHw.

(** X18.  [iichid_get_device_hw] always answers 0 and does not select the
    ACPI node by the I2C address of the device: the hardware description it
    delivers is that of the last node that is an I2C HID device with a
    readable description, whatever address that node has (addresses being
    16-bit values).  If no node is, only the address of the device is
    filled in. *)
Theorem iichid_get_device_hw_takes_last_readable :
  forall (ACPI_DEVICE_PRESENT : Z -> bool) (hid_size : nat) (bus_addr : Z)
         (pre : list acpi_node) (node : acpi_node) (post : list acpi_node)
         (hw : iichid_hw),
    0 <= bus_addr < 65536 ->
    (forall n, In n pre -> readable ACPI_DEVICE_PRESENT hid_size n = true ->
               0 <= device_addr (node_hw hid_size n) < 65536) ->
    readable ACPI_DEVICE_PRESENT hid_size node = true ->
    forallb (fun n => negb (readable ACPI_DEVICE_PRESENT hid_size n)) post = true ->
    (let r := iichid_get_device_hw ACPI_DEVICE_PRESENT hid_size bus_addr
                (pre ++ node :: post) hw in
     fst (fst r) = 0 /\ snd (fst r) = node_hw hid_size node)
    /\ (let r := iichid_get_device_hw ACPI_DEVICE_PRESENT hid_size bus_addr post hw in
        fst (fst r) = 0 /\ snd (fst r) = set_device_addr bus_addr hw).
Proof.
  intros present hid_size bus_addr pre node post hw Hb Hpre Hn Hpost.
  unfold iichid_get_device_hw. split.
  - pose proof (walk_device_hw_last present hid_size pre node post
                  (set_device_addr bus_addr hw) Hb Hpre Hn Hpost) as H.
    destruct (walk_device_hw present hid_size (pre ++ node :: post)
                (set_device_addr bus_addr hw)) as [hw1 t].
    cbn [fst snd] in *. auto.
  - pose proof (walk_device_hw_unreadable present hid_size post
                  (set_device_addr bus_addr hw) Hpost) as H.
    destruct (walk_device_hw present hid_size post (set_device_addr bus_addr hw))
      as [hw1 t].
    cbn [fst snd] in *. auto.
Qed.

Lemma iichid_get_device_hw_takes_last_readable_witness :
  (0 <= 21 < 65536
   /\ readable acpi_device_present 16 (touchpad_node 44) = true)
  /\ snd (fst (iichid_get_device_hw acpi_device_present 16 21
                 [touchpad_node 21; touchpad_node 44] hw_zero))
     = node_hw 16 (touchpad_node 44).
Proof.
  assert (H0 : 0 <= 21 < 65536) by lia.
  assert (H1 : forall n, In n [touchpad_node 21] ->
             readable acpi_device_present 16 n = true ->
             0 <= device_addr (node_hw 16 n) < 65536).
  { intros n [<- | []] _. vm_compute. split; [discriminate | reflexivity]. }
  assert (H2 : readable acpi_device_present 16 (touchpad_node 44) = true)
    by reflexivity.
  assert (H3 : forallb (fun n => negb (readable acpi_device_present 16 n)) [] = true)
    by reflexivity.
  split; [auto |].
  exact (proj2 (proj1 (iichid_get_device_hw_takes_last_readable acpi_device_present 16 21
                         [touchpad_node 21] (touchpad_node 44) [] hw_zero H0 H1 H2 H3))).
Defined.

Lemma addr_in_use_false children addr :
  addr_in_use children addr = false -> ~ In addr children.
Proof.
  induction children as [| c children IH]; intros H; [intros [] |].
  cbn [addr_in_use] in H. destruct (Z.eqb_spec c addr) as [He | He]; [discriminate |].
  intros [Hin | Hin]; [congruence | now apply IH].
Qed.

Lemma NoDup_snoc (l : list Z) (a : Z) : NoDup l -> ~ In a l -> NoDup (l ++ [a]).
Proof.
  intros Hl Ha. induction Hl as [| x l Hx Hl IH]; cbn [app].
  - constructor; [intros [] | constructor].
  - constructor.
    + rewrite in_app_iff. intros [H | [H | []]]; [auto |].
      apply Ha. now left.
    + apply IH. intros H. apply Ha. now right.
Qed.

Lemma identify_cb_spec present hid_size node env children :
  NoDup children ->
  let r := iichid_identify_cb present hid_size node env children in
  NoDup (fst r)
  /\ (exists added, fst r = children ++ added
        /\ (List.length added <= List.length (filter is_add_child (snd r)))%nat)
  /\ (List.length (filter is_add_child (snd r)) <= 1)%nat.
Proof.
  intros Hnd r. subst r. unfold iichid_identify_cb.
  assert (Hnil : exists added : list Z, children = children ++ added
            /\ (List.length added <= 0)%nat).
  { exists []. rewrite app_nil_r. split; [reflexivity | cbn; lia]. }
  destruct (acpi_is_iichid present node); cbn [negb fst snd];
    [| cbn; destruct Hnil as [a [Ha Hl]]; repeat split; eauto].
  pose proof (get_hw_no_add_child hid_size node (stack_hw env)) as Hf.
  destruct (iichid_get_hw hid_size node (stack_hw env)) as [[e hw] t].
  cbn [snd] in Hf.
  destruct (negb (e =? 0)); cbn [fst snd].
  { rewrite Hf. cbn. destruct Hnil as [a [Ha Hl]]. repeat split; eauto. }
  destruct (negb (children_ok env)); cbn [fst snd].
  { rewrite Hf. cbn. destruct Hnil as [a [Ha Hl]]. repeat split; eauto. }
  destruct (addr_in_use children (device_addr hw)) eqn:Huse; cbn [fst snd].
  { rewrite filter_app, Hf. cbn. destruct Hnil as [a [Ha Hl]]. repeat split; eauto. }
  destruct (negb (add_child_ok env)); cbn [fst snd].
  { rewrite filter_app, Hf. cbn. repeat split; auto.
    exists []. rewrite app_nil_r. split; [reflexivity | cbn; lia]. }
  assert (Hirq : filter is_add_child
            (if 0 <? irq hw
             then A_set_irq_resource (irq hw)
                  :: (if negb (set_resource_err env =? 0)
                      then [A_printf "irq assignment failed" []] else [])
             else []) = []).
  { destruct (0 <? irq hw); [destruct (negb (set_resource_err env =? 0)) |]; reflexivity. }
  rewrite !filter_app, Hf, Hirq. cbn.
  repeat split.
  - apply NoDup_snoc; [assumption | now apply addr_in_use_false].
  - exists [device_addr hw]. split; [reflexivity | cbn; lia].
  - lia.
Qed.

(** X19.  [iichid_identify] never adds a second child for an I2C address
    that a child of the bus already has: if the addresses of the children
    are distinct before, they are distinct afterwards.  The children that
    were there stay, in their order; a child is added for at most one
    [BUS_ADD_CHILD] call each, and there is at most one such call per ACPI
    node. *)
Theorem iichid_identify_keeps_addresses_distinct :
  forall (ACPI_DEVICE_PRESENT : Z -> bool) (hid_size : nat)
         (nodes : list (acpi_node * identify_env)) (children : list Z),
    NoDup children ->
    let r := iichid_identify ACPI_DEVICE_PRESENT hid_size nodes children in
    NoDup (fst r)
    /\ (exists added, fst r = children ++ added
          /\ (List.length added <= List.length (filter is_add_child (snd r)))%nat)
    /\ (List.length (filter is_add_child (snd r)) <= List.length nodes)%nat.
Proof.
  intros present hid_size nodes. induction nodes as [| [node env] nodes IH];
    intros children Hnd r; subst r.
  - cbn. repeat split; auto. exists []. rewrite app_nil_r. split; [reflexivity | cbn; lia].
  - cbn [iichid_identify].
    pose proof (identify_cb_spec present hid_size node env children Hnd) as Hcb.
    cbv zeta in Hcb.
    destruct (iichid_identify_cb present hid_size node env children) as [c1 t1].
    cbn [fst snd] in Hcb. destruct Hcb as (Hnd1 & [a1 [Ha1 Hl1]] & Hc1).
    specialize (IH c1 Hnd1). cbv zeta in IH.
    destruct (iichid_identify present hid_size nodes c1) as [c2 t2].
    cbn [fst snd] in *. destruct IH as (Hnd2 & [a2 [Ha2 Hl2]] & Hc2).
    rewrite filter_app, length_app. repeat split.
    + assumption.
    + exists (a1 ++ a2). rewrite Ha2, Ha1, app_assoc, length_app.
      split; [reflexivity | lia].
    + cbn [List.length]. lia.
Qed.

Lemma iichid_identify_keeps_addresses_distinct_witness :
  NoDup [44]
  /\ NoDup (fst (iichid_identify acpi_device_present 16
                   [(touchpad_node 44, identify_env_ok);
                    (touchpad_node 21, identify_env_ok);
                    (touchpad_node 21, identify_env_ok)] [44])).
Proof.
  assert (H0 : NoDup [44]).
  { constructor; [intros [] | constructor]. }
  split; [exact H0 |].
  exact (proj1 (iichid_identify_keeps_addresses_distinct acpi_device_present 16
                  [(touchpad_node 44, identify_env_ok);
                   (touchpad_node 21, identify_env_ok);
                   (touchpad_node 21, identify_env_ok)] [44] H0)).
Defined.



End AcpiProperties.

(** * Properties of the pen driver's probe *)

Section ProbeProperties.
Import Usage Hmap Hpen HpenProbe.

(** X21.  With error codes that are not negative, [hpen_probe] claims the
    device ([BUS_PROBE_DEFAULT]) exactly when the driver lookup and the
    registration of the map both succeeded; otherwise it answers the first
    of the two errors.  It registers no map after a failed lookup and one
    map otherwise, the pen map exactly for the top-level usage
    Digitizers/Pen, and it sets the description only when it claims the
    device, to the name that goes with the registered map. *)
Theorem hpen_probe_claims_only_with_map :
  forall (lookup tlc_usage add_map : Z),
    0 <= lookup -> 0 <= add_map ->
    let r := hpen_probe lookup tlc_usage add_map in
    let is_pen := tlc_usage =? HID_USAGE2 HUP_DIGITIZERS HUD_PEN in
    (fst r = BUS_PROBE_DEFAULT <-> lookup = 0 /\ add_map = 0)
    /\ (fst r <> BUS_PROBE_DEFAULT ->
        fst r = (if lookup =? 0 then add_map else lookup)
        /\ filter is_set_desc (snd r) = [])
    /\ filter is_add_map (snd r)
       = (if lookup =? 0
          then [P_add_map (if is_pen then hpen_map_pen else hpen_map_digi)]
          else [])
    /\ (fst r = BUS_PROBE_DEFAULT ->
        filter is_set_desc (snd r)
        = [P_set_desc (if is_pen then "Pen" else "Digitizer")]).
Proof.
  intros lookup usage add_map Hl Ha r is_pen. subst r is_pen.
  unfold hpen_probe, BUS_PROBE_DEFAULT.
  destruct (Z.eqb_spec lookup 0) as [Hl0 | Hl0]; cbn [negb fst snd];
    [destruct (Z.eqb_spec add_map 0) as [Ha0 | Ha0]; cbn [negb fst snd] |];
    rewrite ?filter_app; cbn;
    repeat split; auto;
    try (intros; congruence);
    try (intros; exfalso; lia);
    try (intros [H1 H2]; congruence).
Qed.

Lemma hpen_probe_claims_only_with_map_witness :
  (0 <= 0 /\ 0 <= 12)
  /\ (fst (hpen_probe 0 (HID_USAGE2 HUP_DIGITIZERS HUD_PEN) 12) = BUS_PROBE_DEFAULT
      <-> 0 = 0 /\ 12 = 0).
Proof.
  assert (H0 : 0 <= 0) by lia.
  assert (H1 : 0 <= 12) by lia.
  split; [auto |].
  exact (proj1 (hpen_probe_claims_only_with_map 0
                  (HID_USAGE2 HUP_DIGITIZERS HUD_PEN) 12 H0 H1)).
Defined.

End ProbeProperties.
